(** * The libffi builder project of the Truffle suite (mx_truffle.py)

    A shallow embedding of [LibffiBuilderProject] and [LibffiBuildTask]:
    the project that extracts the vendored libffi sources, applies the
    platform dependent patches and delegates to a platform dependent
    native builder.

    The Python code talks to the file system, to the ambient platform
    ([mx.get_os()], [mx.get_arch()]) and to external tools.  All of that is
    threaded explicitly through a [world]; Python generators are embedded
    as resumable trees ([gen]) so that the point at which each observation
    of the world is made is the one of the source. *)

From Stdlib Require Import ZArith String Ascii List Bool Lia.
From stdpp Require Import base option list strings pretty gmap fin_maps.

Local Open Scope string_scope.
Local Open Scope list_scope.
Local Open Scope Z_scope.

(** ** posixpath: the string functions behind [mx.join], [mx.basename]
    and [mx.dirname] (which are [os.path.join] and friends).  Paths are
    handled with the POSIX flavour throughout; [LibtoolNativeProject],
    the only user of [basename] and [dirname], exists on non-Windows
    hosts only. *)
Module PosixPath.

Definition sep : ascii := "/"%char.

Definition is_sep (c : ascii) : bool := Ascii.eqb c sep.

(** [b.startswith(sep)] *)
Definition startswith_sep (b : string) : bool :=
  match b with
  | String c _ => is_sep c
  | EmptyString => false
  end.

(** [path.endswith(sep)] *)
Fixpoint endswith_sep (p : string) : bool :=
  match p with
  | EmptyString => false
  | String c EmptyString => is_sep c
  | String _ r => endswith_sep r
  end.

(** One round of the loop of [posixpath.join(a, *p)]. *)
Definition join (path b : string) : string :=
  if startswith_sep b then b
  else if (String.eqb path "" || endswith_sep path)%bool then path +:+ b
  else path +:+ "/" +:+ b.

(** [posixpath.join(a, *p)]: the loop over the remaining components. *)
Definition join_all (a : string) (p : list string) : string :=
  fold_left join p a.

(** [p[i:]] and [p[:i]] for [i = p.rfind(sep) + 1], on the reversed
  list of characters: the tail is what precedes the first separator
  of the reversed path, the head is the rest. *)
Fixpoint rev_tail (r : list ascii) : list ascii :=
  match r with
  | [] => []
  | c :: r' => if is_sep c then [] else c :: rev_tail r'
  end.

Fixpoint rev_head (r : list ascii) : list ascii :=
  match r with
  | [] => []
  | c :: r' => if is_sep c then r else rev_head r'
  end.

(** [head.rstrip(sep)] on the reversed head. *)
Fixpoint lstrip_sep (r : list ascii) : list ascii :=
  match r with
  | [] => []
  | c :: r' => if is_sep c then lstrip_sep r' else r
  end.

Definition rchars (p : string) : list ascii := rev (list_ascii_of_string p).
Definition of_rchars (r : list ascii) : string := string_of_list_ascii (rev r).

(** [posixpath.basename] *)
Definition basename (p : string) : string := of_rchars (rev_tail (rchars p)).

(** [posixpath.dirname]: the head, with trailing separators removed
  unless it consists of separators only. *)
Definition dirname (p : string) : string :=
  let head := rev_head (rchars p) in
  match lstrip_sep head with
  | [] => of_rchars head
  | stripped => of_rchars stripped
  end.

End PosixPath.

(** ** The ambient world: file system and platform. *)

(** What a path names.  A directory carries its listing in the order in
  which [os.listdir] reports it. *)
Inductive kind :=
| File
| Dir (entries : list string).

Record node := Node { mtime : Z; nkind : kind }.

Record world := World {
  w_fs : gmap string node;
  w_os : string;       (* what [mx.get_os()] answers *)
  w_arch : string      (* what [mx.get_arch()] answers *)
}.

Definition with_fs (w : world) (fs : gmap string node) : world :=
  {| w_fs := fs; w_os := w_os w; w_arch := w_arch w |}.

Module OS.

(** [os.path.exists] *)
Definition exists_ (w : world) (p : string) : bool :=
  match w_fs w !! p with
  | Some _ => true
  | None => false
  end.

(** [os.path.isdir] *)
Definition isdir (w : world) (p : string) : bool :=
  match w_fs w !! p with
  | Some (Node _ (Dir _)) => true
  | _ => false
  end.

(** [os.listdir]: [None] stands for the [OSError] raised on a path that
  is missing or is not a directory. *)
Definition listdir (w : world) (p : string) : option (list string) :=
  match w_fs w !! p with
  | Some (Node _ (Dir entries)) => Some entries
  | _ => None
  end.

(** [os.path.getmtime], on an existing path. *)
Definition getmtime (w : world) (p : string) : option Z :=
  mtime <$> w_fs w !! p.

End OS.

(** ** Exceptions and generators. *)

Inductive exn :=
| AssertionError (msg : string)
| OSError (path : string)
| AttributeError
| SystemExit (retcode : Z).

(** A Python generator, as the tree of what it does when resumed:
    finish, yield a value and wait, raise, or go on after looking at the
    world as it is at that moment. *)
Inductive gen (A : Type) : Type :=
| GStop
| GYield (a : A) (k : gen A)
| GRaise (e : exn)
| GResume (f : world → gen A).

Arguments GStop {A}.
Arguments GYield {A} a k.
Arguments GRaise {A} e.
Arguments GResume {A} f.

(** [for x in l: yield x], followed by [k]. *)
Definition yield_from {A} (l : list A) (k : gen A) : gen A :=
  foldr GYield k l.

(** Running one generator body after another. *)
Fixpoint gen_seq {A} (g1 g2 : gen A) : gen A :=
  match g1 with
  | GStop => g2
  | GYield a k => GYield a (gen_seq k g2)
  | GRaise e => GRaise e
  | GResume f => GResume (λ w, gen_seq (f w) g2)
  end.

(** Exhausting a generator while the world stands still ([list(g)], or a
    loop whose body has no effect): the values yielded, and the exception
    that ended the iteration if one did. *)
Fixpoint drain {A} (w : world) (g : gen A) : list A * option exn :=
  match g with
  | GStop => ([], None)
  | GYield a k => let '(l, e) := drain w k in (a :: l, e)
  | GRaise e => ([], Some e)
  | GResume f => drain w (f w)
  end.

(** [next(g)]: the first value yielded and the suspended rest, or the way
    the generator ended ([None] is [StopIteration]). *)
Fixpoint next {A} (w : world) (g : gen A) : (A * gen A) + option exn :=
  match g with
  | GStop => inr None
  | GYield a k => inl (a, k)
  | GRaise e => inr (Some e)
  | GResume f => next w (f w)
  end.


(** ** The project: [LibffiBuilderProject]. *)

Import PosixPath.

Record suite := Suite {
  suite_dir : string;     (* [suite.dir] *)
  suite_vc_dir : string   (* [suite.vc_dir] *)
}.

(** The dependency holding the vendored sources; [lib_path] is what
    [get_path(False)] answers. *)
Record library := Library { lib_name : string; lib_path : string }.

(** The project the build is delegated to.  On Windows it is an
    [mx_native.DefaultNativeProject] with a fixed list of sources, elsewhere
    the local class [LibtoolNativeProject], driven by configure and make. *)
Inductive delegate_project :=
| DefaultNativeProject
    (dir : string) (kind_ : string) (deliverable : string)
    (cflags : list string)
    (source_tree : list string) (source_files : list (string * list string))
| LibtoolNativeProject
    (results : list string) (output : string) (dir : string)
    (buildEnv : list (string * string)).

Definition delegate_dir (d : delegate_project) : string :=
  match d with
  | DefaultNativeProject dir _ _ _ _ _ => dir
  | LibtoolNativeProject _ _ dir _ => dir
  end.

Record LibffiBuilderProject := Project {
  p_suite : suite;
  p_name : string;
  p_subDir : string;
  p_srcDirs : list string;
  p_dir : string;
  p_deps : list library;
  out_dir : string;
  delegate : delegate_project
}.

(** [' '.join(l)] *)
Definition unwords (l : list string) : string := String.concat " " l.

(** [LibffiBuilderProject.__init__].  [w] is the world at construction
    time (for [mx.get_os()]), [output_root] what [get_output_root()]
    answers. *)
Definition init (w : world) (su : suite) (name : string)
    (deps : list library) (output_root : string) : LibffiBuilderProject :=
  let subDir := "src" in
  let srcDirs := ["patches"] in
  let d := join_all (suite_dir su) [subDir; name] in
  let out := output_root in
  let dlg :=
    if String.eqb (w_os w) "windows" then
      DefaultNativeProject
        (join out "libffi-3.4.6") "static_lib" "ffi"
        ["-MD"; "-O2"; "-DFFI_STATIC_BUILD"]
        ["include"; "src"; join "src" "x86"]
        [(".h", [join "include" "ffi.h"; join "include" "ffitarget.h";
                 join "src" "fficonfig.h"; join "src" "ffi_common.h"]);
         (".c", [join "src" "closures.c"; join "src" "prep_cif.c";
                 join "src" "raw_api.c"; join "src" "types.c";
                 join "src" "tramp.c"; join_all "src" ["x86"; "ffiw64.c"]]);
         (".S", [join_all "src" ["x86"; "win64_intel.S"]])]
    else
      let output := join out "libffi-build" in
      let dir := join out "libffi-3.4.6" in
      let configure_args :=
        ["--disable-dependency-tracking";
         "--disable-shared";
         "--with-pic";
         " CFLAGS=" +:+ String (ascii_of_nat 34)
           (unwords (["-g"; "-O3"] ++
                     (if String.eqb (w_os w) "solaris" then ["-m64"] else [])))
           +:+ String (ascii_of_nat 34) "";
         "CPPFLAGS=" +:+ String (ascii_of_nat 34) "-DNO_JAVA_RAW_API"
           +:+ String (ascii_of_nat 34) ""] in
      LibtoolNativeProject
        [".libs/libffi.a"; "include/ffi.h"; "include/ffitarget.h"]
        output dir
        [("SOURCES", basename dir);
         ("OUTPUT", basename output);
         ("CONFIGURE_ARGS", unwords configure_args)] in
  {| p_suite := su; p_name := name; p_subDir := subDir; p_srcDirs := srcDirs;
     p_dir := d; p_deps := deps; out_dir := out; delegate := dlg |}.

(** [mx.Project.source_dirs()]: the source directories below the
    project directory. *)
Definition source_dirs (p : LibffiBuilderProject) : list string :=
  map (join (p_dir p)) (p_srcDirs p).

(** [self.source_dirs()[0]]; the project is always built with one source
    directory, the default only makes the function total. *)
Definition patch_root (p : LibffiBuilderProject) : string :=
  hd "" (source_dirs p).

(** The local function [patch_dir] of [patches]. *)
Definition patch_dir (p : LibffiBuilderProject) (d : string) : string :=
  join (patch_root p) d.

(** The local generator [get_patches] of [patches]. *)
Definition get_patches (patchdir : string) : gen string :=
  GResume (λ w,
    if OS.isdir w patchdir then
      match OS.listdir w patchdir with
      | Some entries => yield_from (map (join patchdir) entries) GStop
      | None => GRaise (OSError patchdir)
      end
    else GStop).

(** ['{}-{}'.format(mx.get_os(), mx.get_arch())] *)
Definition os_arch (w : world) : string := w_os w +:+ "-" +:+ w_arch w.

(** The property [LibffiBuilderProject.patches]: "a list of patches that
    will be applied during a build". *)
Definition patches (p : LibffiBuilderProject) : gen string :=
  gen_seq (get_patches (patch_dir p "common"))
    (GResume (λ w,
       let os_arch_dir := patch_dir p (os_arch w) in
       if OS.exists_ w os_arch_dir then get_patches os_arch_dir
       else get_patches (patch_dir p "others"))).

(** [LibtoolNativeProject.getArchivableResults]; [super_results] is what
    the inherited [getArchivableResults(use_relpath)] yields. *)
Fixpoint getArchivableResults (super_results : list (string * string))
    (single : bool) : gen (string * string) :=
  match super_results with
  | [] => GStop
  | (file_path, archive_path) :: rest =>
      let path_in_lt_objdir := String.eqb (basename (dirname file_path)) ".libs" in
      GYield (file_path,
              if path_in_lt_objdir then basename archive_path else archive_path)
        (if single then
           if path_in_lt_objdir then GStop
           else GRaise (AssertionError "the first build result must be from LT_OBJDIR")
         else getArchivableResults rest single)
  end.

(** ** Time stamps: [mx.TimeStampFile]. *)

(** A path with the modification time it had when the object was made
    ([None] when the path did not exist). *)
Record TimeStampFile := TSF { ts_path : string; timestamp : option Z }.

Module TimeStamp.

(** [TimeStampFile(path)] *)
Definition make (w : world) (path : string) : TimeStampFile :=
  {| ts_path := path; timestamp := OS.getmtime w path |}.

(** [self.exists()] *)
Definition exists_ (w : world) (t : TimeStampFile) : bool :=
  OS.exists_ w (ts_path t).

(** [not self.timestamp]: no time stamp, or the time stamp 0. *)
Definition no_timestamp (t : TimeStampFile) : bool :=
  match timestamp t with
  | None => true
  | Some m => m =? 0
  end.

(** [self.isOlderThan(arg)] for a [TimeStampFile] argument. *)
Definition isOlderThan (self arg : TimeStampFile) : bool :=
  if no_timestamp self then true
  else match timestamp arg, timestamp self with
       | None, _ => false
       | Some a, Some s => s <? a
       | Some _, None => true
       end.

(** [self.isOlderThan(f)] for a path argument. *)
Definition isOlderThan_path (w : world) (self : TimeStampFile) (f : string) : bool :=
  if no_timestamp self then true
  else match OS.getmtime w f, timestamp self with
       | None, _ => true
       | Some m, Some s => s <? m
       | Some _, None => true
       end.

(** One round of the loop of [TimeStampFile.newest]. *)
Definition newest_step (w : world) (ts : option TimeStampFile) (path : string)
    : option TimeStampFile :=
  if OS.exists_ w path then
    match ts with
    | None => Some (make w path)
    | Some t => if isOlderThan_path w t path then Some (make w path) else ts
    end
  else ts.

(** [TimeStampFile.newest(paths)]: the path with the most recent
    modification time; paths that do not exist are ignored. *)
Definition newest (w : world) (paths : list string) : option TimeStampFile :=
  fold_left (newest_step w) paths None.

End TimeStamp.

(** ** The build task: [LibffiBuildTask]. *)

(** What the task does to the outside, in the order in which it does it. *)
Inductive event :=
| Log (msg : string)                          (* [mx.log] *)
| Extract (archive dst : string)              (* [Extractor.extract] *)
| Run (cmd : list string) (cwd : string)      (* [mx.run] *)
| LogBuild                                    (* [delegate.logBuild()] *)
| DelegateBuild.                              (* [delegate.build()] *)

Record state := State { ambient : world; trace : list event }.

Inductive res (A : Type) :=
| Ok (a : A)
| Raise (e : exn).

Arguments Ok {A} a.
Arguments Raise {A} e.

(** Statements that may change the state and may raise. *)
Definition M (A : Type) : Type := state → res A * state.

#[global] Instance M_ret : MRet M := λ A a s, (Ok a, s).

#[global] Instance M_bind : MBind M := λ A B f m s,
  match m s with
  | (Ok a, s') => f a s'
  | (Raise e, s') => (Raise e, s')
  end.

Definition raise {A} (e : exn) : M A := λ s, (Raise e, s).

(** [assert cond, msg] *)
Definition assert_ (cond : state → bool) (msg : string) : M unit := λ s,
  if cond s then (Ok tt, s) else (Raise (AssertionError msg), s).

Definition emit (e : event) : M unit := λ s,
  (Ok tt, {| ambient := ambient s; trace := trace s ++ [e] |}).


(** [for a in g: body(a)]: the generator is resumed in the world the
    previous rounds of the loop have left. *)
Fixpoint for_each {A} (g : gen A) (body : A → M unit) : M unit := λ s,
  match g with
  | GStop => (Ok tt, s)
  | GYield a k =>
      match body a s with
      | (Ok _, s') => for_each k body s'
      | (Raise e, s') => (Raise e, s')
      end
  | GRaise e => (Raise e, s)
  | GResume f => for_each (f (ambient s)) body s
  end.

(** The collaborators outside of this file: the processes that are run
    and the parts of mx that the task calls. *)
Record toolbox := Toolbox {
  (** [mx.Extractor.create(src).extract(dst)]: the exception raised, if
      any, and the file system left behind *)
  tb_extract : string → string → gmap string node → option exn * gmap string node;
  (** the process started by [mx.run(cmd, cwd=...)]: its exit code and
      the file system left behind *)
  tb_run : list string → string → gmap string node → Z * gmap string node;
  (** [os.path.realpath] *)
  tb_realpath : world → string → string;
  (** [delegate.newestOutput()] of the delegate's build task *)
  tb_delegate_newestOutput : world → option TimeStampFile;
  (** [delegate.build()] of the delegate's build task *)
  tb_delegate_build : gmap string node → option exn * gmap string node;
  (** the grounds on which the build task classes of mx ask for a build
      whatever the outputs are (for instance a forced build), with the
      reason they give *)
  tb_generic_needsBuild : option TimeStampFile → world → bool * option string;
  (** [str] of a [TimeStampFile] *)
  tb_show : TimeStampFile → string
}.





(** Handing the file system to an outside tool and taking it back. *)
Definition call {R} (tool : gmap string node → R * gmap string node)
    (outcome : R → option exn) : M unit := λ s,
  let '(r, fs) := tool (w_fs (ambient s)) in
  let s' := {| ambient := with_fs (ambient s) fs; trace := trace s |} in
  match outcome r with
  | None => (Ok tt, s')
  | Some e => (Raise e, s')
  end.

(** [mx.run(cmd, cwd=cwd)]: a non-zero exit code is fatal. *)
Definition run (X : toolbox) (cmd : list string) (cwd : string) : M unit :=
  emit (Run cmd cwd) ;;
  call (tb_run X cmd cwd)
       (λ retcode, if retcode =? 0 then None else Some (SystemExit retcode)).

(** [mx.Extractor.create(archive).extract(dst)] *)
Definition extract (X : toolbox) (archive dst : string) : M unit :=
  emit (Extract archive dst) ;;
  call (tb_extract X archive dst) id.

(** [self.delegate.build()] *)
Definition delegate_build (X : toolbox) : M unit :=
  emit DelegateBuild ;;
  call (tb_delegate_build X) id.

Section LibffiBuildTask.

Variable X : toolbox.
Variable subject : LibffiBuilderProject.

(** The property [LibffiBuilderProject.sources]. *)
Definition sources : M library :=
  assert_ (λ _, (length (p_deps subject) =? 1)%nat)
    (p_name subject +:+ " must depend only on its sources") ;;
  match p_deps subject with
  | l :: _ => mret l
  | [] => raise AttributeError
  end.

(** [LibffiBuildTask.newestOutput] *)
Definition newestOutput (w : world) : option TimeStampFile :=
  let output := tb_delegate_newestOutput X w in
  match output with
  | Some o => if negb (TimeStamp.exists_ w o) then None else output
  | None => output
  end.

(** Modelled from the spec: the inherited
    [mx.AbstractNativeBuildTask.needsBuild], which is not among the
    sources.  By section 4.3 (a) the task is stale when no prior output
    exists; the other grounds of the build task classes are those of
    [tb_generic_needsBuild]. *)
Definition super_needsBuild (newestInput : option TimeStampFile) (w : world)
    : bool * option string :=
  let '(is_needed, reason) := tb_generic_needsBuild X newestInput w in
  if is_needed then (true, reason)
  else match newestOutput w with
       | None => (true, None)
       | Some _ => (false, reason)
       end.

(** [LibffiBuildTask.needsBuild] *)
Definition needsBuild (newestInput : option TimeStampFile) (w : world)
    : res (bool * option string) :=
  let '(is_needed, reason) := super_needsBuild newestInput w in
  if is_needed then Ok (true, reason)
  else
    let output := newestOutput w in
    match drain w (patches subject) with
    | (_, Some e) => Raise e
    | (paths, None) =>
        match TimeStamp.newest w paths with
        | None => Ok (false, Some "all files are up to date")
        | Some newest_patch =>
            match output with
            | None => Raise AttributeError
            | Some o =>
                if TimeStamp.isOlderThan o newest_patch
                then Ok (true, Some (tb_show X o +:+ " is older than "
                                     +:+ tb_show X newest_patch))
                else Ok (false, Some "all files are up to date")
            end
        end
    end.

(** The command line [git_apply] of [build]. *)
Definition git_apply (w : world) : list string :=
  ["git"; "apply"; "--whitespace=nowarn"; "--unsafe-paths"; "--directory";
   tb_realpath X w (delegate_dir (delegate subject))].

(** [LibffiBuildTask.build] *)
Definition build : M unit :=
  assert_ (λ s, negb (OS.exists_ (ambient s) (out_dir subject)))
    (p_name subject +:+ " must be cleaned before build") ;;
  src ← sources;
  emit (Log ("Extracting " +:+ lib_name src +:+ "...")) ;;
  src ← sources;
  extract X (lib_path src) (out_dir subject) ;;
  emit (Log "Applying patches...") ;;
  cmd ← (λ s, (Ok (git_apply (ambient s)), s)) : M (list string);
  for_each (patches subject)
    (λ patch, run X (cmd ++ [patch]) (suite_vc_dir (p_suite subject))) ;;
  emit LogBuild ;;
  delegate_build X.


End LibffiBuildTask.

(** ** The patch set resolver. *)

(** The patches a tier contributes: the entries of the directory, in
    listing order, joined to the directory; nothing when the path is not
    a directory. *)
Definition tier (w : world) (d : string) : list string :=
  match OS.listdir w d with
  | Some entries => map (join d) entries
  | None => []
  end.

(** What the resolver gives in world [w] when the platform tier is looked
    up under the key [key]. *)
Definition resolve_with_key (p : LibffiBuilderProject) (key : string)
    (w : world) : list string :=
  tier w (patch_dir p "common") ++
  (if OS.exists_ w (patch_dir p key)
   then tier w (patch_dir p key)
   else tier w (patch_dir p "others")).

(** The resolution as section 4.1 of the specification words it: the
    platform tier is taken "if a subdirectory named <os>-<arch> exists",
    the [others] tier otherwise. *)
Definition resolve_spec (p : LibffiBuilderProject) (w : world) : list string :=
  tier w (patch_dir p "common") ++
  (if OS.isdir w (patch_dir p (os_arch w))
   then tier w (patch_dir p (os_arch w))
   else tier w (patch_dir p "others")).

(** The scenario of section 8: [common/P1], [linux-amd64/P2],
    [others/P3] below the patch directory of the project. *)
Definition scenario_suite : suite :=
  {| suite_dir := "/graal/truffle"; suite_vc_dir := "/graal" |}.

Definition scenario_fs : gmap string node :=
  list_to_map
    [("/graal/truffle/src/libffi/patches",
        Node 10 (Dir ["common"; "linux-amd64"; "others"]));
     ("/graal/truffle/src/libffi/patches/common", Node 10 (Dir ["P1"]));
     ("/graal/truffle/src/libffi/patches/common/P1", Node 11 File);
     ("/graal/truffle/src/libffi/patches/linux-amd64", Node 10 (Dir ["P2"]));
     ("/graal/truffle/src/libffi/patches/linux-amd64/P2", Node 12 File);
     ("/graal/truffle/src/libffi/patches/others", Node 10 (Dir ["P3"]));
     ("/graal/truffle/src/libffi/patches/others/P3", Node 13 File)].

Definition scenario_world (os arch : string) : world :=
  {| w_fs := scenario_fs; w_os := os; w_arch := arch |}.

Definition scenario_project (os arch : string) : LibffiBuilderProject :=
  init (scenario_world os arch) scenario_suite "libffi"
    [Library "LIBFFI_SOURCES" "/cache/libffi-3.4.6.tar.gz"]
    "/graal/truffle/mxbuild/linux-amd64/src/libffi".

(** The same tree with a regular file where the directory of the
    platform tier would be. *)
Definition file_tier_fs : gmap string node :=
  <["/graal/truffle/src/libffi/patches/linux-amd64" := Node 10 File]>
    (delete "/graal/truffle/src/libffi/patches/linux-amd64/P2" scenario_fs).

Definition file_tier_world : world :=
  {| w_fs := file_tier_fs; w_os := "linux"; w_arch := "amd64" |}.

(** ** Definitions used by the statements. *)


(** What applying the patches of [l] one after the other comes to: the
    patches [git apply] was run on, the exit code that stopped the
    sequence if one did, and the file system left behind. *)
Record attempts := Attempts {
  tried : list string;
  failed : option Z;
  left_fs : gmap string node
}.

Fixpoint apply_in_order (X : toolbox) (cmd : list string) (cwd : string)
    (l : list string) (fs : gmap string node) : attempts :=
  match l with
  | [] => {| tried := []; failed := None; left_fs := fs |}
  | q :: l' =>
      let '(retcode, fs') := tb_run X (cmd ++ [q]) cwd fs in
      if retcode =? 0 then
        let r := apply_in_order X cmd cwd l' fs' in
        {| tried := q :: tried r; failed := failed r; left_fs := left_fs r |}
      else {| tried := [q]; failed := Some retcode; left_fs := fs' |}
  end.

(** The assertion [build] starts with. *)
Definition must_be_cleaned (p : LibffiBuilderProject) : exn :=
  AssertionError (p_name p +:+ " must be cleaned before build").

(** The log and the extraction that precede the patches. *)
Definition staging (p : LibffiBuilderProject) (src : library) : list event :=
  [Log ("Extracting " +:+ lib_name src +:+ "...");
   Extract (lib_path src) (out_dir p);
   Log "Applying patches..."].

(** The directories the resolver looks at. *)
Definition tier_dirs (p : LibffiBuilderProject) (w : world) : list string :=
  [patch_dir p "common"; patch_dir p (os_arch w); patch_dir p "others"].

(** Touching a path: its modification time becomes [t]. *)
Definition touch (w : world) (q : string) (t : Z) : world :=
  with_fs w (alter (λ n, {| mtime := t; nkind := nkind n |}) q (w_fs w)).

(** The second ground of [needsBuild]: the newest output is older than
    the newest patch of the resolved patch set. *)
Definition older_than_patches (X : toolbox) (p : LibffiBuilderProject)
    (w : world) : bool :=
  match newestOutput X w, TimeStamp.newest w (drain w (patches p)).1 with
  | Some o, Some newest_patch => TimeStamp.isOlderThan o newest_patch
  | _, _ => false
  end.


(** ** A concrete run. *)

Definition demo_out : string := "/graal/truffle/mxbuild/linux-amd64/src/libffi".

Definition demo_lib : string :=
  "/graal/truffle/mxbuild/linux-amd64/src/libffi/libffi-build/.libs/libffi.a".

(** Tools that extract an empty tree, build the library, and run
    [git apply] with success except on the patch [bad]. *)
Definition demo_tools (bad : option string) : toolbox :=
  {| tb_extract := λ archive dst fs,
       (None, <[dst := Node 20 (Dir ["libffi-3.4.6"])]>
                (<[join dst "libffi-3.4.6" := Node 20 (Dir [])]> fs));
     tb_run := λ cmd cwd fs,
       (if bool_decide (last cmd = bad) then 1 else 0, fs);
     tb_realpath := λ w path, path;
     tb_delegate_newestOutput := λ w, TimeStamp.newest w [demo_lib];
     tb_delegate_build := λ fs, (None, <[demo_lib := Node 30 File]> fs);
     tb_generic_needsBuild := λ newestInput w, (false, None);
     tb_show := ts_path |}.

Definition demo_project : LibffiBuilderProject := scenario_project "linux" "amd64".

Definition demo_sources : library :=
  Library "LIBFFI_SOURCES" "/cache/libffi-3.4.6.tar.gz".

(** Before any build. *)
Definition unbuilt : state :=
  {| ambient := scenario_world "linux" "amd64"; trace := [] |}.

(** After a build: the output directory and the library are there. *)
Definition built_fs : gmap string node :=
  <[demo_lib := Node 30 File]>
    (<[demo_out := Node 20 (Dir ["libffi-3.4.6"; "libffi-build"])]> scenario_fs).

Definition built_world : world :=
  {| w_fs := built_fs; w_os := "linux"; w_arch := "amd64" |}.

Definition built : state := {| ambient := built_world; trace := [] |}.

(** ** The life of a task instance. *)





(** ** The rest of the project and of the task. *)

(** The property [libs] of [LibtoolNativeProject]:
    [[next(self.getArchivableResults(single=True))[0]]].  On the right,
    [None] is the [StopIteration] of a generator that yields nothing. *)
Definition libs (super_results : list (string * string)) (w : world)
    : list string + option exn :=
  match next w (getArchivableResults super_results true) with
  | inl (r, _) => inl [r.1]
  | inr e => inr e
  end.

(** The property [include_dirs] of [LibtoolNativeProject], [output] being
    what [getOutput()] answers. *)
Definition include_dirs (output : string) : list string :=
  [join output "include"].

(** A world in which nothing has been staged: no patch directory, no
    output. *)
Definition bare_world : world :=
  {| w_fs := ∅; w_os := "linux"; w_arch := "amd64" |}.

(** Tools whose extraction fails. *)
Definition broken_archive_tools : toolbox :=
  {| tb_extract := λ archive dst fs,
       (Some (OSError archive), <[dst := Node 20 (Dir [])]> fs);
     tb_run := tb_run (demo_tools None);
     tb_realpath := tb_realpath (demo_tools None);
     tb_delegate_newestOutput := tb_delegate_newestOutput (demo_tools None);
     tb_delegate_build := tb_delegate_build (demo_tools None);
     tb_generic_needsBuild := tb_generic_needsBuild (demo_tools None);
     tb_show := tb_show (demo_tools None) |}.

(** The project of the scenario, declared without its sources. *)
Definition project_without_sources : LibffiBuilderProject :=
  init (scenario_world "linux" "amd64") scenario_suite "libffi" []
    "/graal/truffle/mxbuild/linux-amd64/src/libffi".

(** A first result that does not lie in [.libs]. *)
Definition misplaced_results : list (string * string) :=
  [("/graal/truffle/mxbuild/linux-amd64/src/libffi/libffi-build/include/ffi.h",
    "include/ffi.h");
   (demo_lib, ".libs/libffi.a")].

(** ** Command line helpers. *)

(** Python's [sub in s] on strings. *)
Fixpoint contains (sub s : string) : bool :=
  String.prefix sub s ||
  match s with
  | EmptyString => false
  | String _ r => contains sub r
  end.

(** [s[n:]] *)
Fixpoint string_drop (n : nat) (s : string) : string :=
  match n, s with
  | O, _ => s
  | S n', String _ r => string_drop n' r
  | S _, EmptyString => EmptyString
  end.

(** The loop of the local function [find_path_arg] of
    [_unittest_config_participant_tck] over the indices it is given.  The
    indices are in range, so the lookup always succeeds. *)
Fixpoint find_path_arg_loop (vmArgs : list string) (prefix : string)
    (indices : list nat) : option (nat * string) :=
  match indices with
  | [] => None
  | index :: rest =>
      match vmArgs !! index with
      | Some arg =>
          if contains prefix arg
          then Some (index, string_drop (String.length prefix) arg)
          else find_path_arg_loop vmArgs prefix rest
      | None => None
      end
  end.

(** [find_path_arg(vmArgs, prefix)]; [None] is the pair [(None, None)].
    The indices are [reversed(range(len(vmArgs) - 1))]. *)
Definition find_path_arg (vmArgs : list string) (prefix : string)
    : option (nat * string) :=
  find_path_arg_loop vmArgs prefix (rev (seq 0 (length vmArgs - 1))).

(** A Python string as the list of its code points: [len] is the length
    of the list. *)
Definition pystr : Type := list N.

(** The code points of a string of ASCII characters. *)
Definition codes (s : string) : pystr :=
  map (λ c, N.of_nat (nat_of_ascii c)) (list_ascii_of_string s).

(** [check_filename_length]: what is handed to [mx.log_error], line by
    line, and the message of [mx.abort] if it is called.  [walk] is what
    [os.walk('.')] yields. *)
Definition max_length : nat := 143.

Definition too_long_names (walk : list (pystr * list pystr * list pystr))
    : list pystr :=
  fold_left
    (λ too_long '(_, _, filenames),
       fold_left
         (λ too_long filename,
            if (max_length <? length filename)%nat
            then too_long ++ [filename] else too_long)
         filenames too_long)
    walk [].

Definition check_filename_length (walk : list (pystr * list pystr * list pystr))
    : list pystr * option string :=
  let too_long := too_long_names walk in
  match too_long with
  | [] => ([], None)
  | _ =>
      (codes "The following file names are too long for eCryptfs: " :: too_long,
       Some "File names that are too long where found. Ensure all file names are under 143 characters long.")
  end.

(** A walk that meets a file name of 157 characters, and one that meets
    a name of 72 characters outside ASCII (144 bytes in UTF-8). *)
Definition long_name : pystr :=
  codes "a_class_name_that_is_so_long_that_the_encrypted_file_system_cannot_store_it_because_it_exceeds_the_limit_of_one_hundred_and_forty_three_characters_by_far.java".

Definition long_name_walk : list (pystr * list pystr * list pystr) :=
  [(codes ".", [codes "src"], [codes "README.md"]);
   (codes "./src", [], [long_name])].

Definition wide_name_walk : list (pystr * list pystr * list pystr) :=
  [(codes ".", [], [replicate 72 233%N])].

(** *** [mx tck] *)

Inductive tck_configuration := Compile | Debugger | Default.

(** What [_tck] ends with: a call of [unittest] with its arguments, or
    [mx.abort] with its message. *)
Inductive tck_outcome :=
| Unittest (args : list string)
| Aborted (msg : string).

(** [for arg in reversed(args): if arg.startswith("-"): break;
    index = index - 1] *)
Fixpoint tests_index (rargs : list string) (index : nat) : nat :=
  match rargs with
  | [] => index
  | arg :: rest =>
      if String.prefix "-" arg then index else tests_index rest (index - 1)
  end.

(** The second loop of [_tck]: the index and [has_separator_arg]. *)
Fixpoint separator_index (rargs : list string) (index : nat) : nat * bool :=
  match rargs with
  | [] => (index, false)
  | arg :: rest =>
      if String.prefix "--" arg then (index, String.eqb arg "--")
      else separator_index rest (index - 1)
  end.

(** [args_no_tests] and the tests as given on the command line. *)
Definition tck_split_tests (args : list string) : list string * list string :=
  let index := tests_index (rev args) (length args) in
  (take index args, drop index (take (length args) args)).

(** [unitTestOptions], [jvmOptions] and [has_separator_arg]. *)
Definition tck_split_options (args_no_tests : list string)
    : list string * list string * bool :=
  let '(index, has_separator_arg) :=
    separator_index (rev args_no_tests) (length args_no_tests) in
  (take (Nat.max (index - (if has_separator_arg then 1 else 0)) 0) args_no_tests,
   drop index (take (length args_no_tests) args_no_tests),
   has_separator_arg).

(** [_execute_debugger_test], up to its call of [unittest]. *)
Definition execute_debugger_test (testFilter : list string) (logFile : string)
    (testEvaluation : bool) (unitTestOptions jvmOptions : option (list string))
    : list string :=
  let debugalot_options := ["-Dpolyglot.debugalot=true"] in
  let debugalot_options :=
    if testEvaluation then debugalot_options ++ ["-Dpolyglot.debugalot.Eval=true"]
    else debugalot_options in
  let debugalot_options :=
    debugalot_options ++ ["-Dpolyglot.debugalot.LogFile=" +:+ logFile] in
  let args := [] in
  let args := match unitTestOptions with Some o => args ++ o | None => args end in
  let args := args ++ ["--"] in
  let args := match jvmOptions with Some o => args ++ o | None => args end in
  let args := args ++ debugalot_options in
  args ++ testFilter.

(** [_tck], after the parsing of [--tck-configuration]: [args] are the
    remaining arguments, [is_graalvm] what [_is_graalvm(mx.get_jdk())]
    answers, [tmpPath] the temporary file of the debugger run. *)
Definition tck (tckConfiguration : tck_configuration) (is_graalvm : bool)
    (tmpPath : string) (args : list string) : tck_outcome :=
  let '(args_no_tests, tests) := tck_split_tests args in
  let tests :=
    if (length tests =? 0)%nat then ["com.oracle.truffle.tck.tests"] else tests in
  let '(unitTestOptions, jvmOptions, _) := tck_split_options args_no_tests in
  match tckConfiguration with
  | Default => Unittest (unitTestOptions ++ ["--"] ++ jvmOptions ++ tests)
  | Debugger =>
      Unittest (execute_debugger_test tests tmpPath false
                  (Some unitTestOptions) (Some jvmOptions))
  | Compile =>
      if negb is_graalvm then
        Aborted "The 'compile' TCK configuration requires graalvm execution, run with --java-home=<path_to_graalvm>."
      else
        Unittest (unitTestOptions ++ ["--"] ++ jvmOptions ++
                  ["-Dpolyglot.engine.AllowExperimentalOptions=true";
                   "-Dpolyglot.engine.Mode=latency";
                   "-Dpolyglot.engine.CompilationFailureAction=Throw";
                   "-Dpolyglot.engine.CompileImmediately=true";
                   "-Dpolyglot.engine.BackgroundCompilation=false"] ++ tests)
  end.

(** ** The archive participant: [TruffleArchiveParticipant]. *)

Module Registrations.

(** [s] without [pre] in front, if it starts with it. *)
Definition strip_prefix (pre s : string) : option string :=
  if String.prefix pre s then Some (string_drop (String.length pre) s) else None.

Definition is_digit (c : ascii) : bool :=
  ((48 <=? nat_of_ascii c) && (nat_of_ascii c <=? 57))%nat.

Definition is_nonzero_digit (c : ascii) : bool :=
  ((49 <=? nat_of_ascii c) && (nat_of_ascii c <=? 57))%nat.

(** As many digits as there are in front, and the rest. *)
Fixpoint span_digits (s : string) : string * string :=
  match s with
  | String c r =>
      if is_digit c then let '(ds, rest) := span_digits r in (String c ds, rest)
      else (EmptyString, s)
  | EmptyString => (EmptyString, EmptyString)
  end.

(** A digit from 1 to 9, digits, and a slash (the group 1 of the
    pattern and the slash after it): the version and what follows the
    slash. *)
Definition match_version (s : string) : option (string * string) :=
  match s with
  | String c r =>
      if is_nonzero_digit c then
        let '(ds, rest) := span_digits r in
        match rest with
        | String "/"%char rest' => Some (String c ds, rest')
        | _ => None
        end
      else None
  | EmptyString => None
  end.

Definition newline : ascii := ascii_of_nat 10.

(** The characters up to the first newline. *)
Fixpoint line_of (s : string) : string :=
  match s with
  | String c r => if Ascii.eqb c newline then EmptyString else String c (line_of r)
  | EmptyString => EmptyString
  end.

(** [(.+)]: one character or more, none of them a newline, as many as
    there are. *)
Definition dot_plus (s : string) : option string :=
  match line_of s with
  | EmptyString => None
  | run => Some run
  end.

(** [providersRE.match(arcname)]: the groups 1 and 2 of the match.  The
    pattern is an optional [META-INF/versions/N/], N a number without
    leading zero (group 1), then [META-INF/truffle-registrations/], then
    one character or more (group 2).  The optional part is tried first,
    and given up when the rest does not match after it. *)
Definition providers_match (arcname : string) : option (option string * string) :=
  let versioned :=
    r ← strip_prefix "META-INF/versions/" arcname;
    '(version, r) ← match_version r;
    r ← strip_prefix "META-INF/truffle-registrations/" r;
    provider ← dot_plus r;
    Some (Some version, provider) in
  match versioned with
  | Some m => Some m
  | None =>
      r ← strip_prefix "META-INF/truffle-registrations/" arcname;
      provider ← dot_plus r;
      Some (None, provider)
  end.

(** [int(version)] on a string of decimal digits. *)
Definition int_of_digits (version : string) : N :=
  fold_left (λ n c, (10 * n + N.of_nat (nat_of_ascii c - 48))%N)
            (list_ascii_of_string version) 0%N.

(** The strings [__process__] reads from an entry are modelled for
    contents of ASCII characters, where a character, a byte and a code
    point are the same. *)
Definition ascii_only (s : string) : bool :=
  forallb (λ c, (nat_of_ascii c <? 128)%nat) (list_ascii_of_string s).

(** [str.isspace] on ASCII characters: tab to carriage return, the four
    separators, and the space. *)
Definition is_space (c : ascii) : bool :=
  let n := nat_of_ascii c in
  (((9 <=? n) && (n <=? 13)) || ((28 <=? n) && (n <=? 32)))%nat.

Fixpoint lstrip (s : string) : string :=
  match s with
  | String c r => if is_space c then lstrip r else s
  | EmptyString => EmptyString
  end.

(** [s.strip()] *)
Definition strip (s : string) : string :=
  String.rev (lstrip (String.rev (lstrip s))).

(** [os.name], as far as the line separator goes. *)
Inductive host := Posix | Nt.

(** [os.linesep] *)
Definition linesep (h : host) : string :=
  match h with
  | Posix => String newline EmptyString
  | Nt => String (ascii_of_nat 13) (String newline EmptyString)
  end.

(** [s.split(sep)] for a separator that is not empty: the parts between
    the occurrences of [sep], looked for from left to right.  [skip]
    counts the characters of the occurrence just found that are still to
    be passed over. *)
Fixpoint split_from (sep : string) (skip : nat) (s : string) : list string :=
  match s with
  | EmptyString => [EmptyString]
  | String c r =>
      match skip with
      | S k => split_from sep k r
      | O =>
          if String.prefix sep s
          then EmptyString :: split_from sep (String.length sep - 1) r
          else match split_from sep 0 r with
               | part :: parts => String c part :: parts
               | [] => [String c EmptyString]
               end
      end
  end.

(** [s.split(os.linesep)] *)
Definition split_lines (h : host) (s : string) : list string :=
  split_from (linesep h) 0 s.

(** The dictionary [services]: providers by service, and providers by
    service for each version. *)
Record services := Services {
  unversioned : gmap string (list string);
  versioned : gmap N (gmap string (list string))
}.

(** [d.setdefault(service, []).append(provider)] *)
Definition register (provider : string) (d : gmap string (list string))
    (service : string) : gmap string (list string) :=
  <[service := default [] (d !! service) ++ [provider]]> d.

(** The loop of [__process__] over the lines of the entry. *)
Fixpoint process_lines (version : option string) (provider : string)
    (lines : list string) (sv : services) : res bool * services :=
  match lines with
  | [] => (Ok true, sv)
  | service :: rest =>
      if String.eqb service "" then (Raise (AssertionError ""), sv)
      else
        let sv' :=
          match version with
          | None =>
              {| unversioned := register provider (unversioned sv) service;
                 versioned := versioned sv |}
          | Some v =>
              let services := default ∅ (versioned sv !! int_of_digits v) in
              {| unversioned := unversioned sv;
                 versioned := <[int_of_digits v := register provider services service]>
                                (versioned sv) |}
          end in
        process_lines version provider rest sv'
  end.

(** [TruffleArchiveParticipant.__process__] on a host [h]; [contents]
    is what [contents_supplier().decode()] gives. *)
Definition process (h : host) (arcname contents : string) (is_source : bool)
    (sv : services) : res bool * services :=
  if is_source then (Ok false, sv)
  else match providers_match arcname with
       | Some (version, provider) =>
           process_lines version provider (split_lines h (strip contents)) sv
       | None => (Ok false, sv)
       end.

Definition no_services : services := {| unversioned := ∅; versioned := ∅ |}.

End Registrations.

(** A registration of two services, one with a blank line, and one
    written on Windows. *)
Definition two_services : string :=
  "com.oracle.truffle.api.provider.TruffleLanguageProvider" +:+
  String Registrations.newline "com.oracle.truffle.api.instrumentation.provider.TruffleInstrumentProvider" +:+
  String Registrations.newline "".

Definition blank_line_services : string :=
  "com.oracle.truffle.api.provider.TruffleLanguageProvider" +:+
  String Registrations.newline (String Registrations.newline "com.example.Service").

Definition windows_services : string :=
  "com.oracle.truffle.api.provider.TruffleLanguageProvider" +:+
  String (ascii_of_nat 13) (String Registrations.newline
    "com.oracle.truffle.api.instrumentation.provider.TruffleInstrumentProvider") +:+
  String (ascii_of_nat 13) (String Registrations.newline "").

(** ** The link check of the Javadoc: [checkLinks]. *)

Module Links.

(** [s.find(c)] for a character: the index of its first occurrence,
    or -1. *)
Fixpoint find_char (c : ascii) (s : string) : Z :=
  match s with
  | EmptyString => -1
  | String x r =>
      if Ascii.eqb x c then 0
      else let i := find_char c r in if i <? 0 then -1 else i + 1
  end.

(** [s[0:n]] for [0 <= n] *)
Fixpoint string_take (n : nat) (s : string) : string :=
  match n, s with
  | S n', String x r => String x (string_take n' r)
  | _, _ => EmptyString
  end.

(** The character [c] occurs in [s]. *)
Definition occurs (c : ascii) (s : string) : Prop :=
  In c (list_ascii_of_string s).

(** [s] is empty or starts with [#] or with [?]. *)
Definition at_mark (s : string) : Prop :=
  s = "" ∨ ∃ c r, s = String c r ∧ (c = "#"%char ∨ c = "?"%char).

(** The body of the innermost loop of [checkLinks] up to [path] and the
    section: what a link refers to, once resolved to [full]. *)
Definition split_link (full : string) : string * option string :=
  let sectionIndex := find_char "#" full in
  let questionIndex := find_char "?" full in
  let minIndex := sectionIndex in
  let minIndex := if minIndex <? 0 then Z.of_nat (String.length full) else minIndex in
  let minIndex :=
    if (0 <=? questionIndex) && (questionIndex <? minIndex) then questionIndex
    else minIndex in
  let path := string_take (Z.to_nat minIndex) full in
  if 0 <=? sectionIndex
  then (path, Some (string_drop (Z.to_nat (sectionIndex + 1)) full))
  else (path, None).

(** A dictionary in the order of insertion. *)
Fixpoint dict_get {V} (d : list (string * V)) (k : string) (default : V) : V :=
  match d with
  | [] => default
  | (k', v) :: rest => if String.eqb k' k then v else dict_get rest k default
  end.

Fixpoint dict_set {V} (d : list (string * V)) (k : string) (v : V)
    : list (string * V) :=
  match d with
  | [] => [(k, v)]
  | (k', v') :: rest =>
      if String.eqb k' k then (k, v) :: rest else (k', v') :: dict_set rest k v
  end.

(** The first part of [checkLinks]: [filesToCheck], from the links met in
    the pages, each given as the page and the resolved reference
    ([html] and [full]) in the order in which the walk meets them. *)
Definition files_to_check (links : list (string * string))
    : list (string * list (string * option string)) :=
  fold_left
    (λ filesToCheck '(html, full),
       let '(path, section) := split_link full in
       let sectionNames := dict_get filesToCheck path [] in
       dict_set filesToCheck path (sectionNames ++ [(html, section)]))
    links [].

(** What a referenced path is on disk. *)
Inductive target :=
| Missing
| Directory
| Page (content : string).

Inductive check_result :=
| Passed
| AbortedWith (msg : string)     (* [mx.abort] *)
| Raised (e : exn).              (* [open] of a directory *)

Definition quote : string := String (ascii_of_nat 34) EmptyString.

Definition is_external (referencedfile : string) : bool :=
  String.prefix "javascript:" referencedfile ||
  String.prefix "http:" referencedfile ||
  String.prefix "https:" referencedfile ||
  String.prefix "mailto:" referencedfile.

(** Whether a page has an anchor for the section. *)
Definition has_section (content s : string) : bool :=
  contains ("name=" +:+ quote +:+ s +:+ quote) content ||
  contains ("id=" +:+ quote +:+ s +:+ quote) content.

(** The loop over the sections of one referenced page: the warnings and
    [err]. *)
Fixpoint check_sections (referencedfile content : string)
    (sections : list (string * option string))
    (warnings : list string) (err : bool) : list string * bool :=
  match sections with
  | [] => (warnings, err)
  | (path, None) :: rest =>
      check_sections referencedfile content rest warnings err
  | (path, Some s) :: rest =>
      if negb (has_section content s) then
        check_sections referencedfile content rest
          (warnings ++ ["There should be section " +:+ s +:+ " in " +:+
                        referencedfile +:+ ". Referenced from " +:+ path])
          true
      else check_sections referencedfile content rest warnings err
  end.

(** The second part of [checkLinks]: the warnings given and how the
    check ends. *)
Fixpoint check_files (read : string → target)
    (filesToCheck : list (string * list (string * option string)))
    (warnings : list string) (err : bool) : list string * check_result :=
  match filesToCheck with
  | [] =>
      (warnings,
       if err then AbortedWith "There are wrong references in Javadoc" else Passed)
  | (referencedfile, sections) :: rest =>
      if is_external referencedfile then check_files read rest warnings err
      else match read referencedfile with
           | Missing =>
               check_files read rest
                 (warnings ++
                  ["Referenced file " +:+ referencedfile +:+
                   " does not exist. Referenced from " +:+
                   match sections with
                   | (html, _) :: _ => html
                   | [] => EmptyString
                   end])
                 true
           | Directory => (warnings, Raised (OSError referencedfile))
           | Page content =>
               let '(warnings, err) :=
                 check_sections referencedfile content sections warnings err in
               check_files read rest warnings err
           end
  end.

(** [checkLinks], from the links of the pages. *)
Definition checkLinks (read : string → target) (links : list (string * string))
    : list string * check_result :=
  check_files read (files_to_check links) [] false.

End Links.

(** Pages for a run of the link check: one page with an anchor. *)
Definition demo_pages (path : string) : Links.target :=
  if String.eqb path "javadoc/api/Node.html"
  then Links.Page ("<a id=" +:+ Links.quote +:+ "execute" +:+ Links.quote +:+ ">")
  else Links.Missing.

Definition demo_links : list (string * string) :=
  [("javadoc/index.html", "javadoc/api/Node.html#execute");
   ("javadoc/index.html", "https://www.graalvm.org/");
   ("javadoc/api/Node.html", "javadoc/api/Node.html?is-external=true")].

(** ** The gate: [_truffle_gate_state_bitwidth_tests]. *)

Module Gate.

Inductive gate_event :=
| Build (args : list string)        (* [mx.build] *)
| UnitTest (args : list string)     (* [unittest] *)
| Logged (msg : string).            (* [mx.log] *)

(** The build and the unit tests: the exception each call ends with, if
    any. *)
Record gate_tools := GateTools {
  g_build : list string → option exn;
  g_unittest : list string → option exn
}.

Definition build_args (run_bits : nat) : list string :=
  ["-f"; "-p"; "--dependencies"; "TRUFFLE_TEST"; "--force-javac";
   "-A-Atruffle.dsl.StateBitWidth=" +:+ pretty run_bits].

Definition unittest_args (run_bits : nat) : list string :=
  ["--suite"; "truffle"; "--enable-timing"; "--max-class-failures=25";
   "-Dtruffle.dsl.StateBitWidth=" +:+ pretty run_bits;
   "com.oracle.truffle.api.dsl.test"; "com.oracle.truffle.api.library.test";
   "com.oracle.truffle.sl.test"].

Definition completed : string :=
  "Completed Truffle DSL state bitwidth test. Reproduce with:".

(** The [finally] block of one round. *)
Definition reproduce (run_bits : nat) : list gate_event :=
  [Logged completed;
   Logged ("  mx build " +:+ unwords (build_args run_bits));
   Logged ("  mx unittest " +:+ unwords (unittest_args run_bits))].

(** One round of the loop: the [try] block, then the [finally] block,
    then the exception of the [try] block if it raised one. *)
Definition bitwidth_round (T : gate_tools) (run_bits : nat)
    : list gate_event * option exn :=
  let '(events, e) :=
    match g_build T (build_args run_bits) with
    | Some e => ([Build (build_args run_bits)], Some e)
    | None =>
        ([Build (build_args run_bits); UnitTest (unittest_args run_bits)],
         g_unittest T (unittest_args run_bits))
    end in
  (events ++ reproduce run_bits, e).

Fixpoint bitwidth_loop (T : gate_tools) (runs : list nat)
    : list gate_event * option exn :=
  match runs with
  | [] => ([], None)
  | run_bits :: rest =>
      match bitwidth_round T run_bits with
      | (events, Some e) => (events, Some e)
      | (events, None) =>
          let '(events', e) := bitwidth_loop T rest in (events ++ events', e)
      end
  end.

(** [_truffle_gate_state_bitwidth_tests] *)
Definition truffle_gate_state_bitwidth_tests (T : gate_tools)
    : list gate_event * option exn :=
  bitwidth_loop T [1; 2; 4; 8; 16]%nat.

(** What a round leaves in the log when build and unit tests pass, and
    when the build fails. *)
Definition passed_round (run_bits : nat) : list gate_event :=
  [Build (build_args run_bits); UnitTest (unittest_args run_bits);
   Logged completed;
   Logged ("  mx build " +:+ unwords (build_args run_bits));
   Logged ("  mx unittest " +:+ unwords (unittest_args run_bits))].

Definition unbuilt_round (run_bits : nat) : list gate_event :=
  [Build (build_args run_bits);
   Logged completed;
   Logged ("  mx build " +:+ unwords (build_args run_bits));
   Logged ("  mx unittest " +:+ unwords (unittest_args run_bits))].

End Gate.

(** ** The unittest participant: [_unittest_config_participant]. *)

Module Participant.

(** The configuration handed to a participant: the two argument lists
    are list objects, given by their addresses in the store of lists. *)
Record config := Config {
  vmArgs : nat;
  mainClass : string;
  mainClassArgs : nat
}.

(** [l + more]: a new list object. *)
Definition list_add (h : gmap nat (list string)) (l : nat) (more : list string)
    : gmap nat (list string) * nat :=
  let r := fresh (dom h) in
  (<[r := default [] (h !! l) ++ more]> h, r).

(** [l.extend(more)]: the list object itself grows. *)
Definition list_extend (h : gmap nat (list string)) (l : nat) (more : list string)
    : gmap nat (list string) :=
  alter (λ old, old ++ more) l h.

(** [_unittest_config_participant]; [shouldRunTCKParticipant] is the
    global [_shouldRunTCKParticipant], [tck_participant] stands for
    [_unittest_config_participant_tck]. *)
Definition unittest_config_participant
    (shouldRunTCKParticipant : bool)
    (tck_participant : gmap nat (list string) → config →
                       gmap nat (list string) * config)
    (h : gmap nat (list string)) (c : config)
    : gmap nat (list string) * config :=
  let '(h, vmArgs1) :=
    list_add h (vmArgs c) ["-Dpolyglot.engine.WarnInterpreterOnly=false"] in
  let '(h, vmArgs2) :=
    list_add h vmArgs1 ["--add-exports=java.base/jdk.internal.module=ALL-UNNAMED"] in
  let h := list_extend h (mainClassArgs c)
             ["-JUnitOpenPackages"; "org.graalvm.truffle/*=ALL-UNNAMED"] in
  let h := list_extend h (mainClassArgs c)
             ["-JUnitOpenPackages"; "org.graalvm.truffle.compiler/*=ALL-UNNAMED"] in
  let h := list_extend h (mainClassArgs c)
             ["-JUnitOpenPackages"; "org.graalvm.truffle.runtime/*=ALL-UNNAMED"] in
  let h := list_extend h (mainClassArgs c)
             ["-JUnitOpenPackages"; "org.graalvm.polyglot/*=ALL-UNNAMED"] in
  let h := list_extend h (mainClassArgs c)
             ["-JUnitOpenPackages"; "org.graalvm.sl/*=ALL-UNNAMED"] in
  let h := list_extend h (mainClassArgs c)
             ["-JUnitOpenPackages"; "org.graalvm.truffle/*=org.graalvm.sl"] in
  let config := {| vmArgs := vmArgs2; mainClass := mainClass c;
                   mainClassArgs := mainClassArgs c |} in
  if shouldRunTCKParticipant then tck_participant h config else (h, config).

(** The arguments the participant adds. *)
Definition added_vm_args : list string :=
  ["-Dpolyglot.engine.WarnInterpreterOnly=false";
   "--add-exports=java.base/jdk.internal.module=ALL-UNNAMED"].

Definition added_main_class_args : list string :=
  ["-JUnitOpenPackages"; "org.graalvm.truffle/*=ALL-UNNAMED";
   "-JUnitOpenPackages"; "org.graalvm.truffle.compiler/*=ALL-UNNAMED";
   "-JUnitOpenPackages"; "org.graalvm.truffle.runtime/*=ALL-UNNAMED";
   "-JUnitOpenPackages"; "org.graalvm.polyglot/*=ALL-UNNAMED";
   "-JUnitOpenPackages"; "org.graalvm.sl/*=ALL-UNNAMED";
   "-JUnitOpenPackages"; "org.graalvm.truffle/*=org.graalvm.sl"].

End Participant.

(** A build and unit tests that always succeed, and a build that fails
    at the bit width 4. *)
Definition passing_tools : Gate.gate_tools :=
  {| Gate.g_build := λ _, None; Gate.g_unittest := λ _, None |}.

Definition failing_build_tools : Gate.gate_tools :=
  {| Gate.g_build := λ args,
       if bool_decide (args = Gate.build_args 4) then Some (SystemExit 1)
       else None;
     Gate.g_unittest := λ _, None |}.

(** VM arguments that give the truffle class path twice. *)
Definition appended_twice : list string :=
  ["-Dtruffle.class.path.append=a.jar"; "-ea";
   "-Dtruffle.class.path.append=b.jar"].

(** ** The TCK participant: [_unittest_config_participant_tck]. *)

Module TckParticipant.

(** [s.split(sep)] for a separator of one character. *)
Fixpoint split_char (sep : ascii) (s : string) : list string :=
  match s with
  | EmptyString => [EmptyString]
  | String c r =>
      if Ascii.eqb c sep then EmptyString :: split_char sep r
      else match split_char sep r with
           | part :: parts => String c part :: parts
           | [] => [String c EmptyString]
           end
  end.

(** [sep.join(l)] *)
Definition join_char (sep : ascii) (l : list string) : string :=
  String.concat (String sep EmptyString) l.

(** The keys of an [OrderedDict], in the order of insertion.
    [d[k] = None]: *)
Definition od_add (d : list string) (k : string) : list string :=
  if bool_decide (k ∈ d) then d else d ++ [k].

(** [d.pop(k, None)] *)
Definition od_pop (d : list string) (k : string) : list string :=
  List.filter (λ e, negb (String.eqb e k)) d.

(** A builder filled from the value of an option: nothing for [None] and
    for the empty string, the parts of the value otherwise. *)
Definition builder_of (pathsep : ascii) (value : option string) : list string :=
  match value with
  | Some v =>
      if String.eqb v "" then []
      else fold_left od_add (split_char pathsep v) []
  | None => []
  end.

(** [if index: vmArgs[index] = value else: vmArgs.append(value)].  The
    index comes from a search in [vmArgs] and is in range. *)
Definition replace_or_append (vmArgs : list string) (index : option nat)
    (value : string) : list string :=
  match index with
  | Some (S i) => <[S i := value]> vmArgs
  | _ => vmArgs ++ [value]
  end.

(** The three builders once the loops have run: class path, truffle
    class path and boot class path (the last two are built on GraalVM
    only). *)
Definition builders (pathsep : ascii)
    (providers languages boot_cp : list string) (is_graalvm : bool)
    (cpValue : option string) (vmArgs : list string)
    : list string * list string * list string :=
  let cpBuilder := builder_of pathsep cpValue in
  let cpBuilder := fold_left od_add providers cpBuilder in
  if is_graalvm then
    let tpBuilder :=
      builder_of pathsep (snd <$> find_path_arg vmArgs "-Dtruffle.class.path.append=") in
    let tpBuilder := fold_left od_add languages tpBuilder in
    let bpBuilder :=
      builder_of pathsep (snd <$> find_path_arg vmArgs "-Xbootclasspath/a:") in
    fold_left
      (λ '(cpBuilder, tpBuilder, bpBuilder) bootCpElement,
         (od_pop cpBuilder bootCpElement,
          od_pop tpBuilder bootCpElement,
          od_add bpBuilder bootCpElement))
      boot_cp (cpBuilder, tpBuilder, bpBuilder)
  else (fold_left od_add languages cpBuilder, [], []).

(** [_unittest_config_participant_tck], on the VM arguments of the
    configuration.  [providers], [languages] and [boot_cp] are the keys
    the collectors have put into the dictionaries of these names,
    [java_properties] the items of [javaPropertiesToAdd], [cp] what
    [mx.find_classpath_arg(vmArgs)] answers, [is_graalvm] what
    [_is_graalvm(mx.get_jdk())] answers, [pathsep] is [os.pathsep]. *)
Definition unittest_config_participant_tck (pathsep : ascii)
    (providers languages boot_cp : list string)
    (java_properties : list (string * string))
    (is_graalvm : bool) (cp : option (nat * string))
    (vmArgs : list string) : list string :=
  let '(cpBuilder, tpBuilder, bpBuilder) :=
    builders pathsep providers languages boot_cp is_graalvm (snd <$> cp) vmArgs in
  let vmArgs' :=
    if is_graalvm then
      let tpIndex := fst <$> find_path_arg vmArgs "-Dtruffle.class.path.append=" in
      let bpIndex := fst <$> find_path_arg vmArgs "-Xbootclasspath/a:" in
      let tpValue := "-Dtruffle.class.path.append=" +:+ join_char pathsep tpBuilder in
      let vmArgs1 := replace_or_append vmArgs tpIndex tpValue in
      let bpValue := "-Xbootclasspath/a:" +:+ join_char pathsep bpBuilder in
      replace_or_append vmArgs1 bpIndex bpValue
    else vmArgs in
  let cpValue := join_char pathsep cpBuilder in
  let vmArgs' :=
    match fst <$> cp with
    | Some (S i) => <[S i := cpValue]> vmArgs'
    | _ => (vmArgs' ++ ["-cp"]) ++ [cpValue]
    end in
  fold_left (λ args '(key, value), args ++ ["-D" +:+ key +:+ "=" +:+ value])
            java_properties vmArgs'.

End TckParticipant.

(** The parts of the value an option had before, as a predicate: nothing
    for an option that is absent or empty. *)
Definition old_entries (pathsep : ascii) (value : option string)
    (e : string) : Prop :=
  ∃ s, value = Some s ∧ s ≠ "" ∧ e ∈ TckParticipant.split_char pathsep s.

(** How [_unittest_config_participant_tck] writes a java property. *)
Definition java_property (item : string * string) : string :=
  "-D" +:+ item.1 +:+ "=" +:+ item.2.

(** * Properties *)

(** *** Draining generators *)

Lemma drain_yield_from {A} (w : world) (l : list A) (k : gen A) :
  drain w (yield_from l k) = (l ++ (drain w k).1, (drain w k).2).
Proof.
  induction l as [|a l IH]; simpl.
  - by destruct (drain w k).
  - change (foldr GYield k l) with (yield_from l k). by rewrite IH.
Qed.

Lemma drain_gen_seq {A} (w : world) (g1 g2 : gen A) :
  drain w (gen_seq g1 g2) =
  match drain w g1 with
  | (l, None) => (l ++ (drain w g2).1, (drain w g2).2)
  | (l, Some e) => (l, Some e)
  end.
Proof.
  induction g1 as [|a k IH|e|f IH]; simpl.
  - by destruct (drain w g2).
  - rewrite IH. by destruct (drain w k) as [l [e|]].
  - done.
  - apply IH.
Qed.

Lemma isdir_listdir (w : world) (d : string) :
  OS.isdir w d = true ↔ ∃ entries, OS.listdir w d = Some entries.
Proof.
  unfold OS.isdir, OS.listdir.
  destruct (w_fs w !! d) as [[m [|es]]|]; split; intros H;
    try done; try (by destruct H); eauto.
Qed.

Lemma isdir_exists (w : world) (d : string) :
  OS.isdir w d = true → OS.exists_ w d = true.
Proof.
  unfold OS.isdir, OS.exists_. by destruct (w_fs w !! d).
Qed.

Lemma tier_not_dir (w : world) (d : string) :
  OS.isdir w d = false → tier w d = [].
Proof.
  unfold OS.isdir, tier, OS.listdir.
  by destruct (w_fs w !! d) as [[m [|es]]|].
Qed.

(** [get_patches] never raises: the listing is only asked of a
    directory. *)
Lemma drain_get_patches (w : world) (d : string) :
  drain w (get_patches d) = (tier w d, None).
Proof.
  unfold get_patches, tier, OS.isdir, OS.listdir. simpl.
  destruct (w_fs w !! d) as [[m [|es]]|]; simpl; try done.
  rewrite drain_yield_from. simpl. by rewrite app_nil_r.
Qed.

Lemma drain_patches (p : LibffiBuilderProject) (w : world) :
  drain w (patches p) = (resolve_with_key p (os_arch w) w, None).
Proof.
  unfold patches, resolve_with_key.
  rewrite drain_gen_seq, drain_get_patches. simpl.
  destruct (OS.exists_ w (patch_dir p (os_arch w)));
    by rewrite drain_get_patches.
Qed.

(** *** The resolved patch set *)

(** C1 (as amended).  In every world and for every project the resolver
    yields, without raising, the patches of [common] in listing order,
    followed by those of [<os>-<arch>] if a path of that name exists
    (directory or not), by those of [others] otherwise; so the platform
    tier and the [others] tier never both contribute.  In the scenario of
    section 8 the resolution is [P1; P2] for (linux, amd64) and [P1; P3]
    for (darwin, amd64). *)
Theorem patches_resolution :
  (∀ (p : LibffiBuilderProject) (w : world),
     drain w (patches p) =
     (tier w (patch_dir p "common") ++
      (if OS.exists_ w (patch_dir p (os_arch w))
       then tier w (patch_dir p (os_arch w))
       else tier w (patch_dir p "others")), None))
  ∧ drain (scenario_world "linux" "amd64")
          (patches (scenario_project "linux" "amd64")) =
    (["/graal/truffle/src/libffi/patches/common/P1";
      "/graal/truffle/src/libffi/patches/linux-amd64/P2"], None)
  ∧ drain (scenario_world "darwin" "amd64")
          (patches (scenario_project "darwin" "amd64")) =
    (["/graal/truffle/src/libffi/patches/common/P1";
      "/graal/truffle/src/libffi/patches/others/P3"], None).
Proof.
  split; [|split].
  - intros p w. apply drain_patches.
  - vm_compute. reflexivity.
  - vm_compute. reflexivity.
Qed.

(** C1 as worded fails where [<os>-<arch>] is a regular file: no
    subdirectory of that name exists, yet the [others] tier is skipped. *)
Lemma patches_resolution_as_worded_fails :
  drain file_tier_world (patches (scenario_project "linux" "amd64")) ≠
  (resolve_spec (scenario_project "linux" "amd64") file_tier_world, None).
Proof. vm_compute. discriminate. Qed.

(** C8.  A tier whose directory is missing yields no patch and no error,
    and the resolution as a whole succeeds with what the tiers that are
    there contribute. *)
Theorem missing_tier_contributes_nothing
    (p : LibffiBuilderProject) (w : world) (d : string) :
  d ∈ [patch_dir p "common"; patch_dir p (os_arch w); patch_dir p "others"] →
  OS.exists_ w d = false →
  drain w (get_patches d) = ([], None) ∧
  drain w (patches p) =
    ((if OS.exists_ w (patch_dir p "common")
      then tier w (patch_dir p "common") else []) ++
     (if OS.exists_ w (patch_dir p (os_arch w))
      then tier w (patch_dir p (os_arch w))
      else if OS.exists_ w (patch_dir p "others")
           then tier w (patch_dir p "others") else []), None).
Proof.
  intros _ Hd.
  assert (Hmiss : ∀ q, OS.exists_ w q = false → tier w q = []).
  { intros q Hq. apply tier_not_dir.
    destruct (OS.isdir w q) eqn:E; [|done].
    apply isdir_exists in E. congruence. }
  split.
  - rewrite drain_get_patches. by rewrite Hmiss.
  - rewrite drain_patches. unfold resolve_with_key.
    destruct (OS.exists_ w (patch_dir p "common")) eqn:E1;
      [|rewrite (Hmiss _ E1)];
      (destruct (OS.exists_ w (patch_dir p (os_arch w))); [done|]);
      (destruct (OS.exists_ w (patch_dir p "others")) eqn:E3;
         [done | by rewrite (Hmiss _ E3)]).
Qed.

Lemma missing_tier_contributes_nothing_witness :
  drain (scenario_world "darwin" "amd64")
        (get_patches "/graal/truffle/src/libffi/patches/darwin-amd64") = ([], None)
  ∧ drain (scenario_world "darwin" "amd64")
          (patches (scenario_project "darwin" "amd64")) =
    (["/graal/truffle/src/libffi/patches/common/P1";
      "/graal/truffle/src/libffi/patches/others/P3"], None).
Proof.
  apply (missing_tier_contributes_nothing
           (scenario_project "darwin" "amd64") (scenario_world "darwin" "amd64")
           "/graal/truffle/src/libffi/patches/darwin-amd64").
  - vm_compute. right. left.
  - vm_compute. reflexivity.
Defined.

(** C9.  When the path [<os>-<arch>] exists but is not a directory, only
    the [common] patches are resolved: the platform tier is empty and the
    [others] tier is not consulted. *)
Theorem platform_path_not_a_directory
    (p : LibffiBuilderProject) (w : world) :
  OS.exists_ w (patch_dir p (os_arch w)) = true →
  OS.isdir w (patch_dir p (os_arch w)) = false →
  drain w (patches p) = (tier w (patch_dir p "common"), None).
Proof.
  intros Hex Hdir. rewrite drain_patches. unfold resolve_with_key.
  rewrite Hex, (tier_not_dir _ _ Hdir). by rewrite app_nil_r.
Qed.

Lemma platform_path_not_a_directory_witness :
  drain file_tier_world (patches (scenario_project "linux" "amd64")) =
  (["/graal/truffle/src/libffi/patches/common/P1"], None).
Proof.
  apply (platform_path_not_a_directory
           (scenario_project "linux" "amd64") file_tier_world);
    vm_compute; reflexivity.
Defined.

(** ** Building. *)

Ltac unfold_M := unfold mbind, M_bind, mret, M_ret, raise, assert_, emit, call.

(** *** Loops over generators *)

Lemma for_each_gen_seq {A} (g1 g2 : gen A) (body : A → M unit) (s : state) :
  for_each (gen_seq g1 g2) body s =
  match for_each g1 body s with
  | (Ok _, s') => for_each g2 body s'
  | (Raise e, s') => (Raise e, s')
  end.
Proof.
  revert s. induction g1 as [|a k IH|e|f IH]; intros s; simpl.
  - done.
  - destruct (body a s) as [[[]|e] s']; [apply IH | done].
  - done.
  - apply IH.
Qed.

Lemma for_each_get_patches (d : string) (body : string → M unit) (s : state) :
  for_each (get_patches d) body s =
  for_each (yield_from (tier (ambient s) d) GStop) body s.
Proof.
  unfold get_patches, tier, OS.isdir, OS.listdir. simpl.
  by destruct (w_fs (ambient s) !! d) as [[m [|es]]|].
Qed.

Section ApplyInOrder.

Variable X : toolbox.
Variable cmd : list string.
Variable cwd : string.

Let body : string → M unit := λ patch, run X (cmd ++ [patch]) cwd.
Let runs (l : list string) : list event := map (λ q, Run (cmd ++ [q]) cwd) l.

Lemma for_each_list (l : list string) (k : gen string) (s : state) :
  let r := apply_in_order X cmd cwd l (w_fs (ambient s)) in
  let s' := {| ambient := with_fs (ambient s) (left_fs r);
               trace := trace s ++ runs (tried r) |} in
  for_each (yield_from l k) body s =
  match failed r with
  | None => for_each k body s'
  | Some retcode => (Raise (SystemExit retcode), s')
  end.
Proof.
  revert s. induction l as [|q l IH]; intros s; simpl.
  - destruct s as [[fs o a] t]; simpl. unfold with_fs; simpl.
    by rewrite app_nil_r.
  - change (foldr GYield k l) with (yield_from l k).
    unfold body at 1, run. unfold_M. simpl.
    destruct (tb_run X (cmd ++ [q]) cwd (w_fs (ambient s))) as [rc fs'] eqn:E.
    simpl. destruct (rc =? 0) eqn:Erc; simpl.
    + rewrite IH. simpl. unfold with_fs; simpl.
      rewrite <- !app_assoc. simpl.
      by destruct (failed (apply_in_order X cmd cwd l fs')).
    + done.
Qed.

Lemma apply_in_order_app (l1 l2 : list string) (fs : gmap string node) :
  apply_in_order X cmd cwd (l1 ++ l2) fs =
  let r1 := apply_in_order X cmd cwd l1 fs in
  match failed r1 with
  | None =>
      let r2 := apply_in_order X cmd cwd l2 (left_fs r1) in
      {| tried := tried r1 ++ tried r2; failed := failed r2;
         left_fs := left_fs r2 |}
  | Some _ => r1
  end.
Proof.
  revert fs. induction l1 as [|q l1 IH]; intros fs; simpl.
  - by destruct (apply_in_order X cmd cwd l2 fs).
  - destruct (tb_run X (cmd ++ [q]) cwd fs) as [rc fs'].
    destruct (rc =? 0); [|done].
    rewrite IH. simpl.
    by destruct (apply_in_order X cmd cwd l1 fs') as [t [rc'|] fs''].
Qed.

(** The patches tried are an initial segment of the list, all of it when
    none failed; a failure is a non-zero exit code of the last one
    tried. *)
Lemma apply_in_order_prefix (l : list string) (fs : gmap string node) :
  let r := apply_in_order X cmd cwd l fs in
  tried r `prefix_of` l ∧
  (failed r = None → tried r = l) ∧
  (∀ rc, failed r = Some rc →
     rc ≠ 0 ∧ ∃ done_ q, tried r = done_ ++ [q] ∧
       (tb_run X (cmd ++ [q]) cwd
          (left_fs (apply_in_order X cmd cwd done_ fs))).1 = rc ∧
       failed (apply_in_order X cmd cwd done_ fs) = None).
Proof.
  revert fs. induction l as [|q l IH]; intros fs; simpl.
  - split; [done|]. split; [done|]. intros rc H. discriminate.
  - destruct (tb_run X (cmd ++ [q]) cwd fs) as [rc fs'] eqn:E.
    destruct (rc =? 0) eqn:Erc; simpl.
    + destruct (IH fs') as (Hp & Hall & Hfail).
      split; [by apply prefix_cons|].
      split; [intros H; by rewrite Hall|].
      intros rc' H. destruct (Hfail rc' H) as (Hne & d & q' & Ht & Hrc & Hok).
      split; [done|]. exists (q :: d), q'. simpl. rewrite E, Erc. simpl.
      by rewrite Ht.
    + split; [apply prefix_cons, prefix_nil|].
      split; [done|]. intros rc' [= <-].
      split; [by apply Z.eqb_neq|].
      exists [], q. simpl. by rewrite E.
Qed.

(** A path the runs leave alone is left alone by the whole sequence. *)
Lemma apply_in_order_frame (d : string) (l : list string)
    (fs : gmap string node) :
  (∀ c fs0, (tb_run X c cwd fs0).2 !! d = fs0 !! d) →
  left_fs (apply_in_order X cmd cwd l fs) !! d = fs !! d.
Proof.
  intros Hframe. revert fs. induction l as [|q l IH]; intros fs; simpl.
  - done.
  - specialize (Hframe (cmd ++ [q]) fs).
    destruct (tb_run X (cmd ++ [q]) cwd fs) as [rc fs'].
    simpl in Hframe. destruct (rc =? 0); simpl; [|done].
    by rewrite IH.
Qed.

End ApplyInOrder.

(** *** The build *)

Section Build.

Variable X : toolbox.
Variable p : LibffiBuilderProject.

(** C3.  On a state in which [out_dir] exists, [build] raises its
    assertion and leaves the state as it was: nothing is logged, extracted,
    patched or built.  Hence a build that changes anything started without
    that directory. *)
Theorem build_refuses_existing_out_dir (s : state) :
  (OS.exists_ (ambient s) (out_dir p) = true →
   build X p s = (Raise (must_be_cleaned p), s))
  ∧ ((build X p s).2 ≠ s → OS.exists_ (ambient s) (out_dir p) = false).
Proof.
  assert (H : OS.exists_ (ambient s) (out_dir p) = true →
              build X p s = (Raise (must_be_cleaned p), s)).
  { intros Hex. unfold build. unfold_M. by rewrite Hex. }
  split; [done|].
  intros Hch. destruct (OS.exists_ (ambient s) (out_dir p)); [|done].
  rewrite H in Hch; done.
Qed.

Lemma build_staged (s : state) (src : library) (fs1 : gmap string node) :
  OS.exists_ (ambient s) (out_dir p) = false →
  p_deps p = [src] →
  tb_extract X (lib_path src) (out_dir p) (w_fs (ambient s)) = (None, fs1) →
  let s1 := {| ambient := with_fs (ambient s) fs1;
               trace := trace s ++ staging p src |} in
  build X p s =
  (for_each (patches p)
     (λ patch, run X (git_apply X p (ambient s1) ++ [patch])
                 (suite_vc_dir (p_suite p))) ;;
   emit LogBuild ;;
   delegate_build X) s1.
Proof.
  intros Hex Hdeps Hext s1. unfold build, sources, extract.
  unfold_M. rewrite Hex, Hdeps. simpl. rewrite Hext. simpl.
  unfold s1, staging. rewrite <- !app_assoc. simpl. done.
Qed.

Lemma tier_same_lookup (w : world) (fs fs' : gmap string node) (d : string) :
  fs' !! d = fs !! d →
  tier (with_fs w fs') d = tier (with_fs w fs) d ∧
  OS.exists_ (with_fs w fs') d = OS.exists_ (with_fs w fs) d.
Proof.
  intros H. unfold tier, OS.listdir, OS.exists_. simpl. by rewrite H.
Qed.

(** The loop of [build] over the resolved patch set, when running
    [git apply] leaves the patch directories alone: the patches seen by
    the loop are those the resolver gives at its start. *)
Lemma for_each_patches (cmd : list string) (cwd : string) (s1 : state) :
  (∀ d c fs, d ∈ tier_dirs p (ambient s1) →
     (tb_run X c cwd fs).2 !! d = fs !! d) →
  let ps := (drain (ambient s1) (patches p)).1 in
  let r := apply_in_order X cmd cwd ps (w_fs (ambient s1)) in
  let s' := {| ambient := with_fs (ambient s1) (left_fs r);
               trace := trace s1 ++ map (λ q, Run (cmd ++ [q]) cwd) (tried r) |} in
  for_each (patches p) (λ patch, run X (cmd ++ [patch]) cwd) s1 =
  match failed r with
  | Some retcode => (Raise (SystemExit retcode), s')
  | None => (Ok tt, s')
  end.
Proof.
  intros Hframe. destruct s1 as [w1 t1]. cbn [ambient trace] in *.
  set (body := λ patch, run X (cmd ++ [patch]) cwd).
  set (l1 := tier w1 (patch_dir p "common")).
  set (r1 := apply_in_order X cmd cwd l1 (w_fs w1)).
  set (w2 := with_fs w1 (left_fs r1)).
  set (l2 := if OS.exists_ w1 (patch_dir p (os_arch w1))
             then tier w1 (patch_dir p (os_arch w1))
             else tier w1 (patch_dir p "others")).
  rewrite drain_patches. cbn [fst]. unfold resolve_with_key.
  fold l1. fold l2. rewrite apply_in_order_app. fold r1. cbn zeta.
  unfold patches. rewrite for_each_gen_seq, for_each_get_patches.
  cbn [ambient]. fold l1. rewrite (for_each_list X cmd cwd).
  cbn zeta. cbn [ambient trace]. fold r1. fold w2.
  destruct (failed r1) as [rc1|] eqn:Ef1; rewrite ?Ef1; [done|].
  (* the second tier is chosen in the world the first tier has left *)
  assert (Hkeep : ∀ d, d ∈ tier_dirs p w1 → left_fs r1 !! d = w_fs w1 !! d).
  { intros d Hd. apply apply_in_order_frame. intros c fs0. by apply Hframe. }
  assert (Hsame : ∀ d, d ∈ tier_dirs p w1 →
            tier w2 d = tier w1 d ∧ OS.exists_ w2 d = OS.exists_ w1 d).
  { intros d Hd. unfold tier, OS.listdir, OS.exists_, w2. cbn [w_fs with_fs].
    by rewrite (Hkeep d Hd). }
  assert (Hin1 : patch_dir p (os_arch w1) ∈ tier_dirs p w1)
    by (unfold tier_dirs; rewrite !elem_of_cons; auto).
  assert (Hin2 : patch_dir p "others" ∈ tier_dirs p w1)
    by (unfold tier_dirs; rewrite !elem_of_cons; auto).
  destruct (Hsame _ Hin1) as [Ht1 He1]. destruct (Hsame _ Hin2) as [Ht2 _].
  cbn [for_each ambient].
  change (os_arch w2) with (os_arch w1). rewrite He1.
  assert (Hstep : ∀ t,
    for_each (if OS.exists_ w1 (patch_dir p (os_arch w1))
              then get_patches (patch_dir p (os_arch w1))
              else get_patches (patch_dir p "others")) body
      {| ambient := w2; trace := t |} =
    for_each (yield_from l2 GStop) body {| ambient := w2; trace := t |}).
  { intros t. unfold l2.
    destruct (OS.exists_ w1 (patch_dir p (os_arch w1)));
      rewrite for_each_get_patches; cbn [ambient]; by rewrite ?Ht1, ?Ht2. }
  rewrite Hstep, (for_each_list X cmd cwd).
  cbn zeta. cbn [ambient trace for_each].
  change (w_fs w2) with (left_fs r1).
  set (r2 := apply_in_order X cmd cwd l2 (left_fs r1)).
  cbn [tried failed left_fs]. rewrite map_app, <- app_assoc.
  by destruct (failed r2).
Qed.

(** C4.  From a state without [out_dir], with the sources as only
    dependency and an extraction that succeeds, and as long as running
    [git apply] leaves the patch directories alone: [build] runs
    [git apply] on the patches of the resolved patch set one by one, in
    the order of the resolver.  If one exits with a non-zero code the
    build stops there with [SystemExit]: the trace ends with that run, no
    further patch is tried and the delegate does not build.  If none
    fails, all patches have been applied and the delegate builds. *)
Theorem patches_applied_in_order
    (s : state) (src : library) (fs1 : gmap string node) :
  OS.exists_ (ambient s) (out_dir p) = false →
  p_deps p = [src] →
  tb_extract X (lib_path src) (out_dir p) (w_fs (ambient s)) = (None, fs1) →
  (∀ d c fs, d ∈ tier_dirs p (ambient s) →
     (tb_run X c (suite_vc_dir (p_suite p)) fs).2 !! d = fs !! d) →
  let w1 := with_fs (ambient s) fs1 in
  let cmd := git_apply X p w1 in
  let cwd := suite_vc_dir (p_suite p) in
  let ps := (drain w1 (patches p)).1 in
  let r := apply_in_order X cmd cwd ps fs1 in
  let staged :=
    trace s ++ staging p src ++ map (λ q, Run (cmd ++ [q]) cwd) (tried r) in
  tried r `prefix_of` ps ∧
  match failed r with
  | Some retcode =>
      retcode ≠ 0 ∧
      (∃ done_ q rest, ps = done_ ++ q :: rest ∧ tried r = done_ ++ [q]) ∧
      build X p s =
      (Raise (SystemExit retcode),
       {| ambient := with_fs (ambient s) (left_fs r); trace := staged |})
  | None =>
      tried r = ps ∧
      build X p s =
      (match (tb_delegate_build X (left_fs r)).1 with
       | None => Ok tt
       | Some e => Raise e
       end,
       {| ambient := with_fs (ambient s) (tb_delegate_build X (left_fs r)).2;
          trace := staged ++ [LogBuild; DelegateBuild] |})
  end.
Proof.
  intros Hex Hdeps Hext Hframe w1 cmd cwd ps r staged.
  destruct (apply_in_order_prefix X cmd cwd ps fs1) as (Hpre & Hall & Hfail).
  fold r in Hpre, Hall, Hfail. split; [done|].
  pose proof (for_each_patches cmd cwd
                {| ambient := w1; trace := trace s ++ staging p src |} Hframe)
    as Hloop.
  cbn zeta in Hloop. cbn [ambient trace] in Hloop.
  change (w_fs w1) with fs1 in Hloop. fold ps in Hloop. fold r in Hloop.
  change (with_fs w1 (left_fs r)) with (with_fs (ambient s) (left_fs r)) in Hloop.
  rewrite <- app_assoc in Hloop. fold staged in Hloop.
  rewrite (build_staged s src fs1 Hex Hdeps Hext).
  cbn zeta. cbn [ambient]. fold w1. fold cmd. fold cwd.
  unfold delegate_build. unfold_M. rewrite Hloop.
  destruct (failed r) as [rc|] eqn:Ef.
  - destruct (Hfail rc eq_refl) as (Hne & done_ & q & Ht & _).
    split; [done|]. split; [|done].
    destruct Hpre as [rest Hrest]. exists done_, q, rest.
    split; [|done]. by rewrite Hrest, Ht, <- app_assoc.
  - split; [by apply Hall|].
    cbn [ambient trace with_fs w_fs].
    destruct (tb_delegate_build X (left_fs r)) as [[e|] fs3];
      cbn [fst snd id ambient trace with_fs w_fs w_os w_arch];
      by rewrite <- !app_assoc.
Qed.

End Build.

(** ** The rebuild decision. *)

Lemma touch_exists (w : world) (q : string) (t : Z) (d : string) :
  OS.exists_ (touch w q t) d = OS.exists_ w d.
Proof.
  unfold OS.exists_, touch. simpl. rewrite lookup_alter.
  case_decide; [subst|done]. by destruct (w_fs w !! d).
Qed.

Lemma touch_listdir (w : world) (q : string) (t : Z) (d : string) :
  OS.listdir (touch w q t) d = OS.listdir w d.
Proof.
  unfold OS.listdir, touch. simpl. rewrite lookup_alter.
  case_decide; [subst|done]. by destruct (w_fs w !! d) as [[m k]|].
Qed.

Lemma touch_getmtime_ne (w : world) (q : string) (t : Z) (d : string) :
  q ≠ d → OS.getmtime (touch w q t) d = OS.getmtime w d.
Proof.
  intros Hne. unfold OS.getmtime, touch. simpl. by rewrite lookup_alter_ne.
Qed.

Lemma touch_getmtime (w : world) (q : string) (t : Z) :
  OS.exists_ w q = true → OS.getmtime (touch w q t) q = Some t.
Proof.
  unfold OS.exists_, OS.getmtime, touch. simpl. rewrite lookup_alter_eq.
  by destruct (w_fs w !! q).
Qed.

Lemma touch_resolve (p : LibffiBuilderProject) (w : world) (q : string) (t : Z) :
  drain (touch w q t) (patches p) = drain w (patches p).
Proof.
  rewrite !drain_patches. unfold resolve_with_key, tier.
  change (os_arch (touch w q t)) with (os_arch w).
  by rewrite !touch_listdir, touch_exists.
Qed.

Section Newest.

Variable w : world.

(** The time stamp picked by [TimeStampFile.newest] is not older than
    that of a path of the list that exists and was modified after time
    0. *)
Lemma newest_not_older (l : list string) (q : string) (t : Z) :
  q ∈ l → OS.getmtime w q = Some t → 0 < t →
  ∃ np m, TimeStamp.newest w l = Some np ∧ timestamp np = Some m ∧ t ≤ m.
Proof.
  intros Hq Hm Ht. unfold TimeStamp.newest.
  set (good := λ acc : option TimeStampFile,
         ∃ np m, acc = Some np ∧ timestamp np = Some m ∧ t ≤ m).
  assert (Hkeep : ∀ acc path, good acc → good (TimeStamp.newest_step w acc path)).
  { intros acc path (np & m & -> & Hts & Hle). unfold good.
    unfold TimeStamp.newest_step.
    destruct (OS.exists_ w path) eqn:Eex; [|by exists np, m].
    unfold TimeStamp.isOlderThan_path, TimeStamp.no_timestamp. rewrite Hts.
    destruct (m =? 0) eqn:E0; [apply Z.eqb_eq in E0; lia|].
    destruct (OS.getmtime w path) as [mp|] eqn:Emp.
    - destruct (m <? mp) eqn:Elt; [|by exists np, m].
      apply Z.ltb_lt in Elt. exists (TimeStamp.make w path), mp.
      simpl. rewrite Emp. split; [done|]. split; [done|lia].
    - unfold OS.exists_, OS.getmtime in *.
      destruct (w_fs w !! path); done. }
  assert (Hhit : ∀ acc, good (TimeStamp.newest_step w acc q)).
  { intros acc. unfold good, TimeStamp.newest_step.
    assert (Hex : OS.exists_ w q = true).
    { unfold OS.exists_, OS.getmtime in *. by destruct (w_fs w !! q). }
    rewrite Hex. destruct acc as [np|].
    - unfold TimeStamp.isOlderThan_path, TimeStamp.no_timestamp. rewrite Hm.
      destruct (timestamp np) as [m|] eqn:Ets.
      + destruct (m =? 0) eqn:E0.
        * exists (TimeStamp.make w q), t. simpl. by rewrite Hm.
        * destruct (m <? t) eqn:Elt.
          -- exists (TimeStamp.make w q), t. simpl. by rewrite Hm.
          -- apply Z.ltb_ge in Elt. by exists np, m.
      + exists (TimeStamp.make w q), t. simpl. by rewrite Hm.
    - exists (TimeStamp.make w q), t. simpl. by rewrite Hm. }
  assert (Hfold : ∀ l' acc, good acc → good (fold_left (TimeStamp.newest_step w) l' acc)).
  { induction l' as [|a l' IH]; intros acc Hacc; simpl; [done|].
    apply IH. by apply Hkeep. }
  generalize (@None TimeStampFile).
  induction Hq as [q l|q a l Hq IH]; intros acc; simpl.
  - apply Hfold, Hhit.
  - by apply IH.
Qed.

End Newest.

(** [TimeStampFile.newest] looks only at the paths it is given. *)
Lemma newest_touch_other (w : world) (q : string) (t : Z) (l : list string) :
  q ∉ l → TimeStamp.newest (touch w q t) l = TimeStamp.newest w l.
Proof.
  unfold TimeStamp.newest. generalize (@None TimeStampFile).
  induction l as [|a l IH]; intros acc Hq; simpl; [done|].
  apply not_elem_of_cons in Hq as [Hne Hq].
  rewrite IH by done. f_equal.
  unfold TimeStamp.newest_step, TimeStamp.isOlderThan_path, TimeStamp.make.
  by rewrite touch_exists, touch_getmtime_ne.
Qed.

Section NeedsBuild.

Variable X : toolbox.
Variable p : LibffiBuilderProject.

Lemma needsBuild_decides (newestInput : option TimeStampFile) (w : world) :
  ∃ reason,
    needsBuild X p newestInput w =
    Ok ((super_needsBuild X newestInput w).1 || older_than_patches X p w, reason).
Proof.
  unfold needsBuild, older_than_patches.
  destruct (super_needsBuild X newestInput w) as [b r] eqn:Es. cbn [fst].
  destruct b; [by exists r|]. cbn [orb].
  assert (Hout : ∃ o, newestOutput X w = Some o).
  { unfold super_needsBuild in Es.
    destruct (tb_generic_needsBuild X newestInput w) as [[] r'];
      [done|]. destruct (newestOutput X w); [eauto|done]. }
  destruct Hout as [o Ho]. rewrite Ho, drain_patches. cbn [fst].
  destruct (TimeStamp.newest w _) as [np|]; [|eauto].
  destruct (TimeStamp.isOlderThan o np); eauto.
Qed.

(** C2.  [needsBuild] answers true exactly when the inherited check
    reports stale or the newest output is older than the newest patch of
    the resolved patch set, and false otherwise; it never raises.  Hence
    touching, at a time later than the outputs, a patch of the resolved
    set makes it answer true; and touching a path that is neither in the
    resolved set nor looked at by the inherited check or by the
    delegate's outputs does not change its answer. *)
Theorem needsBuild_patches_are_inputs
    (newestInput : option TimeStampFile) (w : world) :
  (∃ reason,
     needsBuild X p newestInput w =
     Ok ((super_needsBuild X newestInput w).1 || older_than_patches X p w, reason))
  ∧ (∀ q t,
       q ∈ (drain w (patches p)).1 →
       OS.exists_ w q = true →
       0 < t →
       (∀ o m, newestOutput X (touch w q t) = Some o →
               timestamp o = Some m → m < t) →
       ∃ reason, needsBuild X p newestInput (touch w q t) = Ok (true, reason))
  ∧ (∀ q t,
       q ∉ (drain w (patches p)).1 →
       tb_generic_needsBuild X newestInput (touch w q t) =
         tb_generic_needsBuild X newestInput w →
       tb_delegate_newestOutput X (touch w q t) =
         tb_delegate_newestOutput X w →
       needsBuild X p newestInput (touch w q t) =
       needsBuild X p newestInput w).
Proof.
  split; [apply needsBuild_decides|]. split.
  - intros q t Hq Hex Ht Hout.
    destruct (needsBuild_decides newestInput (touch w q t)) as [r Hr].
    exists r. rewrite Hr. f_equal. f_equal.
    destruct (super_needsBuild X newestInput (touch w q t)).1 eqn:Es; [done|].
    simpl. unfold older_than_patches.
    assert (Ho : ∃ o, newestOutput X (touch w q t) = Some o).
    { unfold super_needsBuild in Es.
      destruct (tb_generic_needsBuild X newestInput (touch w q t)) as [[] r'];
        [done|]. destruct (newestOutput X (touch w q t)); [eauto|done]. }
    destruct Ho as [o Ho]. rewrite Ho, touch_resolve.
    destruct (newest_not_older (touch w q t) _ q t Hq
                (touch_getmtime w q t Hex) Ht) as (np & m & -> & Hm & Hle).
    unfold TimeStamp.isOlderThan, TimeStamp.no_timestamp. rewrite Hm.
    destruct (timestamp o) as [mo|] eqn:Eo; [|done].
    destruct (mo =? 0); [done|].
    apply Z.ltb_lt. specialize (Hout o mo Ho Eo). lia.
  - intros q t Hq Hgen Hdel.
    assert (Hno : newestOutput X (touch w q t) = newestOutput X w).
    { unfold newestOutput, TimeStamp.exists_. rewrite Hdel.
      destruct (tb_delegate_newestOutput X w); [|done].
      by rewrite touch_exists. }
    unfold needsBuild, super_needsBuild.
    rewrite Hgen, Hno, touch_resolve.
    destruct (drain w (patches p)) as [l e] eqn:Ed. simpl in Hq.
    by rewrite (newest_touch_other w q t l Hq).
Qed.

End NeedsBuild.

(** ** Cleaning. *)





Section Clean.

Variable X : toolbox.
Variable p : LibffiBuilderProject.





End Clean.

(** ** The platform key. *)














(** ** The results of the libtool build. *)

(** C6.  The inherited results naming each file by an archive path
    that ends in the name of the file: when every result is asked for,
    [getArchivableResults] yields each inherited result with its file
    path unchanged; the archive path is the basename of the file if the
    file lies directly in a directory named [.libs], and is unchanged
    otherwise.  With [single] only the first result is yielded, and
    resuming the generator after it ends the iteration normally if that
    result lies in [.libs] and with the assertion error if not. *)
Theorem archivable_results_of_libtool
    (w : world) (super_results : list (string * string)) :
  Forall (λ r, basename r.2 = basename r.1) super_results →
  (∃ out,
     drain w (getArchivableResults super_results false) = (out, None) ∧
     Forall2 (λ r y,
                y.1 = r.1 ∧
                y.2 = if String.eqb (basename (dirname r.1)) ".libs"
                      then basename r.1 else r.2)
             super_results out)
  ∧ match super_results with
    | [] => drain w (getArchivableResults super_results true) = ([], None)
    | (file_path, archive_path) :: _ =>
        if String.eqb (basename (dirname file_path)) ".libs" then
          drain w (getArchivableResults super_results true) =
          ([(file_path, basename file_path)], None)
        else
          drain w (getArchivableResults super_results true) =
          ([(file_path, archive_path)],
           Some (AssertionError "the first build result must be from LT_OBJDIR"))
    end.
Proof.
  intros Hnames. split.
  - induction Hnames as [|[fp ap] rs Hn _ (out & Hd & Hall)]; simpl.
    + exists []. split; [done|constructor].
    + rewrite Hd. eexists. split; [done|]. constructor; [|done].
      simpl in *. by rewrite Hn.
  - destruct Hnames as [|[fp ap] rs Hn _]; simpl; [done|].
    simpl in Hn. rewrite Hn.
    by destruct (String.eqb (basename (dirname fp)) ".libs").
Qed.

Lemma build_refuses_existing_out_dir_witness :
  build (demo_tools None) demo_project built =
    (Raise (must_be_cleaned demo_project), built)
  ∧ OS.exists_ (ambient unbuilt) (out_dir demo_project) = false.
Proof.
  split.
  - apply (build_refuses_existing_out_dir (demo_tools None) demo_project built).
    vm_compute. reflexivity.
  - apply (build_refuses_existing_out_dir (demo_tools None) demo_project unbuilt).
    vm_compute. discriminate.
Defined.

Lemma patches_applied_in_order_witness :
  let X := demo_tools (Some "/graal/truffle/src/libffi/patches/linux-amd64/P2") in
  let git := ["git"; "apply"; "--whitespace=nowarn"; "--unsafe-paths";
              "--directory";
              "/graal/truffle/mxbuild/linux-amd64/src/libffi/libffi-3.4.6"] in
  (build X demo_project unbuilt).1 = Raise (SystemExit 1) ∧
  trace (build X demo_project unbuilt).2 =
    [Log "Extracting LIBFFI_SOURCES...";
     Extract "/cache/libffi-3.4.6.tar.gz" demo_out;
     Log "Applying patches...";
     Run (git ++ ["/graal/truffle/src/libffi/patches/common/P1"]) "/graal";
     Run (git ++ ["/graal/truffle/src/libffi/patches/linux-amd64/P2"]) "/graal"].
Proof.
  intros X git.
  assert (Hex : OS.exists_ (ambient unbuilt) (out_dir demo_project) = false)
    by (vm_compute; reflexivity).
  assert (Hdeps : p_deps demo_project = [demo_sources]) by reflexivity.
  assert (Hframe : ∀ d c fs, d ∈ tier_dirs demo_project (ambient unbuilt) →
            (tb_run X c (suite_vc_dir (p_suite demo_project)) fs).2 !! d = fs !! d)
    by done.
  destruct (patches_applied_in_order X demo_project unbuilt demo_sources _
              Hex Hdeps eq_refl Hframe) as [_ H].
  vm_compute in H. destruct H as (_ & _ & H).
  split.
  - exact (f_equal fst H).
  - exact (f_equal (λ r, trace r.2) H).
Defined.

Lemma needsBuild_patches_are_inputs_witness :
  let X := demo_tools None in
  (∃ reason, needsBuild X demo_project None built_world = Ok (false, reason))
  ∧ (∃ reason,
       needsBuild X demo_project None
         (touch built_world "/graal/truffle/src/libffi/patches/common/P1" 100) =
       Ok (true, reason))
  ∧ needsBuild X demo_project None
      (touch built_world "/graal/truffle/src/libffi/patches/others/P3" 100) =
    needsBuild X demo_project None built_world.
Proof.
  intros X.
  destruct (needsBuild_patches_are_inputs X demo_project None built_world)
    as (Hdec & Hin & Hout).
  split; [|split].
  - destruct Hdec as [reason Hdec]. exists reason. rewrite Hdec.
    vm_compute. reflexivity.
  - apply (Hin "/graal/truffle/src/libffi/patches/common/P1" 100).
    + apply (bool_decide_unpack _). vm_compute. reflexivity.
    + vm_compute. reflexivity.
    + lia.
    + intros o m Ho Hm. vm_compute in Ho. injection Ho as <-.
      vm_compute in Hm. injection Hm as <-. lia.
  - apply (Hout "/graal/truffle/src/libffi/patches/others/P3" 100).
    + apply (bool_decide_unpack _). vm_compute. reflexivity.
    + reflexivity.
    + vm_compute. reflexivity.
Defined.



Lemma archivable_results_of_libtool_witness :
  drain built_world
    (getArchivableResults
       [(demo_lib, ".libs/libffi.a");
        ("/graal/truffle/mxbuild/linux-amd64/src/libffi/libffi-build/include/ffi.h",
         "include/ffi.h")] false) =
  ([(demo_lib, "libffi.a");
    ("/graal/truffle/mxbuild/linux-amd64/src/libffi/libffi-build/include/ffi.h",
     "include/ffi.h")], None).
Proof.
  destruct (archivable_results_of_libtool built_world
    [(demo_lib, ".libs/libffi.a");
     ("/graal/truffle/mxbuild/linux-amd64/src/libffi/libffi-build/include/ffi.h",
      "include/ffi.h")]) as [(out & Hd & Hall) _].
  - repeat constructor.
  - rewrite Hd. f_equal.
    apply Forall2_cons_inv_l in Hall as (y1 & out1 & [H11 H12] & Hall & ->).
    apply Forall2_cons_inv_l in Hall as (y2 & out2 & [H21 H22] & Hall & ->).
    apply Forall2_nil_inv_l in Hall as ->.
    destruct y1, y2. simpl in *. by subst.
Defined.

(** * Further properties of the project and of the task *)

Section BuildEdges.

Variable X : toolbox.
Variable p : LibffiBuilderProject.

(** X1.  A project that does not have exactly one dependency cannot be
    built: once the check of [out_dir] has passed, [build] raises the
    assertion of [sources] before anything is logged, extracted or run. *)
Theorem build_needs_exactly_one_dependency (s : state) :
  OS.exists_ (ambient s) (out_dir p) = false →
  length (p_deps p) ≠ 1%nat →
  build X p s =
  (Raise (AssertionError (p_name p +:+ " must depend only on its sources")), s).
Proof.
  intros Hex Hlen. unfold build, sources. unfold_M. rewrite Hex. simpl.
  destruct (length (p_deps p) =? 1)%nat eqn:E; [|done].
  apply Nat.eqb_eq in E. done.
Qed.

Lemma build_extraction_raises
    (s : state) (src : library) (e : exn) (fs1 : gmap string node) :
  OS.exists_ (ambient s) (out_dir p) = false →
  p_deps p = [src] →
  tb_extract X (lib_path src) (out_dir p) (w_fs (ambient s)) = (Some e, fs1) →
  build X p s =
  (Raise e,
   {| ambient := with_fs (ambient s) fs1;
      trace := trace s ++ [Log ("Extracting " +:+ lib_name src +:+ "...");
                           Extract (lib_path src) (out_dir p)] |}).
Proof.
  intros Hex Hdeps Hext. unfold build, sources, extract. unfold_M.
  rewrite Hex, Hdeps. simpl. rewrite Hext. simpl.
  by rewrite <- app_assoc.
Qed.

(** X2.  When the extraction raises, [build] ends with that exception
    right after the extraction: the trace holds the first log line and
    the extraction only, no patch is applied and the delegate does not
    build. *)
Theorem build_stops_at_failed_extraction
    (s : state) (src : library) (e : exn) (fs1 : gmap string node) :
  OS.exists_ (ambient s) (out_dir p) = false →
  p_deps p = [src] →
  tb_extract X (lib_path src) (out_dir p) (w_fs (ambient s)) = (Some e, fs1) →
  build X p s =
  (Raise e,
   {| ambient := with_fs (ambient s) fs1;
      trace := trace s ++ [Log ("Extracting " +:+ lib_name src +:+ "...");
                           Extract (lib_path src) (out_dir p)] |}).
Proof.
  intros Hex Hdeps Hext.
  rewrite (build_extraction_raises s src e fs1 Hex Hdeps Hext). done.
Qed.



(** X5.  With an empty resolved patch set the answer of [needsBuild] is
    that of the inherited check: true with its reason when it reports
    stale, false otherwise. *)
Theorem needsBuild_without_patches
    (newestInput : option TimeStampFile) (w : world) :
  (drain w (patches p)).1 = [] →
  needsBuild X p newestInput w =
  Ok (if (super_needsBuild X newestInput w).1
      then super_needsBuild X newestInput w
      else (false, Some "all files are up to date")).
Proof.
  intros Hnone. unfold needsBuild.
  destruct (super_needsBuild X newestInput w) as [[] r]; [done|].
  rewrite drain_patches in *. simpl in Hnone. by rewrite Hnone.
Qed.

End BuildEdges.

Lemma build_needs_exactly_one_dependency_witness :
  build (demo_tools None) project_without_sources unbuilt =
  (Raise (AssertionError "libffi must depend only on its sources"), unbuilt).
Proof.
  apply (build_needs_exactly_one_dependency (demo_tools None)
           project_without_sources unbuilt).
  - vm_compute. reflexivity.
  - vm_compute. discriminate.
Defined.

Lemma build_stops_at_failed_extraction_witness :
  (build broken_archive_tools demo_project unbuilt).1 =
    Raise (OSError "/cache/libffi-3.4.6.tar.gz")
  ∧ trace (build broken_archive_tools demo_project unbuilt).2 =
    [Log "Extracting LIBFFI_SOURCES...";
     Extract "/cache/libffi-3.4.6.tar.gz" demo_out].
Proof.
  assert (H := build_stops_at_failed_extraction broken_archive_tools
                 demo_project unbuilt demo_sources
                 (OSError "/cache/libffi-3.4.6.tar.gz")
                 (<[demo_out := Node 20 (Dir [])]> scenario_fs)).
  rewrite H.
  - split; reflexivity.
  - vm_compute. reflexivity.
  - reflexivity.
  - reflexivity.
Defined.



Lemma needsBuild_without_patches_witness :
  needsBuild (demo_tools None) demo_project None bare_world = Ok (true, None).
Proof.
  rewrite (needsBuild_without_patches (demo_tools None) demo_project None
             bare_world).
  - vm_compute. reflexivity.
  - vm_compute. reflexivity.
Defined.

(** X6.  The resolver does not look at modification times: touching any
    path, patch or not, leaves the resolved patch set as it is. *)
Theorem resolution_ignores_modification_times
    (p : LibffiBuilderProject) (w : world) (touched : list (string * Z)) :
  drain (foldl (λ w0 qt, touch w0 qt.1 qt.2) w touched) (patches p) =
  drain w (patches p).
Proof.
  revert w. induction touched as [|[q t] l IH]; intros w; [done|].
  cbn [foldl fst snd]. rewrite IH. apply touch_resolve.
Qed.

(** X7.  Every resolved patch is an entry of one of the three tier
    directories, joined to that directory. *)
Theorem resolved_patches_are_tier_entries
    (p : LibffiBuilderProject) (w : world) (q : string) :
  q ∈ (drain w (patches p)).1 →
  ∃ d entries e,
    d ∈ tier_dirs p w ∧ OS.listdir w d = Some entries ∧
    e ∈ entries ∧ q = join d e.
Proof.
  rewrite drain_patches. simpl. unfold resolve_with_key.
  assert (Htier : ∀ d, q ∈ tier w d →
            ∃ entries e, OS.listdir w d = Some entries ∧ e ∈ entries ∧ q = join d e).
  { intros d. unfold tier. destruct (OS.listdir w d) as [es|]; [|by intros ?%elem_of_nil].
    intros (e & -> & He)%list_elem_of_fmap. eauto. }
  intros [H|H]%elem_of_app.
  - destruct (Htier _ H) as (es & e & ?). exists (patch_dir p "common"), es, e.
    split; [|done]. unfold tier_dirs. rewrite !elem_of_cons. auto.
  - destruct (OS.exists_ w (patch_dir p (os_arch w)));
      destruct (Htier _ H) as (es & e & ?); eexists _, es, e;
      (split; [|done]); unfold tier_dirs; rewrite !elem_of_cons; auto.
Qed.

Lemma resolved_patches_are_tier_entries_witness :
  ∃ d entries e,
    d ∈ tier_dirs demo_project (scenario_world "linux" "amd64") ∧
    OS.listdir (scenario_world "linux" "amd64") d = Some entries ∧
    e ∈ entries ∧
    "/graal/truffle/src/libffi/patches/linux-amd64/P2" = join d e.
Proof.
  apply (resolved_patches_are_tier_entries demo_project
           (scenario_world "linux" "amd64")).
  apply (bool_decide_unpack _). vm_compute. reflexivity.
Defined.

(** X8.  [libs] takes the first result with [next] and never resumes the
    generator, so the assertion that follows the [yield] is not reached:
    [libs] is the file path of the first inherited result also when that
    result does not lie in [.libs], where exhausting the same generator
    raises the assertion error. *)
Theorem libs_does_not_reach_the_assertion
    (w : world) (file_path archive_path : string)
    (rest : list (string * string)) :
  String.eqb (basename (dirname file_path)) ".libs" = false →
  libs ((file_path, archive_path) :: rest) w = inl [file_path] ∧
  (drain w (getArchivableResults ((file_path, archive_path) :: rest) true)).2 =
    Some (AssertionError "the first build result must be from LT_OBJDIR").
Proof.
  intros Hdir. unfold libs. simpl. by rewrite Hdir.
Qed.

Lemma libs_does_not_reach_the_assertion_witness :
  libs misplaced_results built_world =
    inl ["/graal/truffle/mxbuild/linux-amd64/src/libffi/libffi-build/include/ffi.h"]
  ∧ (drain built_world (getArchivableResults misplaced_results true)).2 =
    Some (AssertionError "the first build result must be from LT_OBJDIR").
Proof.
  apply (libs_does_not_reach_the_assertion built_world
           "/graal/truffle/mxbuild/linux-amd64/src/libffi/libffi-build/include/ffi.h"
           "include/ffi.h" [(demo_lib, ".libs/libffi.a")]).
  vm_compute. reflexivity.
Defined.

Lemma prefix_app (a b : string) : String.prefix a (a +:+ b) = true.
Proof.
  induction a as [|c a IH]; simpl; [by destruct b|].
  destruct (ascii_dec c c); [done|congruence].
Qed.





(** * Command line helpers *)

Lemma find_path_arg_loop_down (vmArgs : list string) (prefix : string) (n : nat) :
  (n ≤ length vmArgs)%nat →
  match find_path_arg_loop vmArgs prefix (rev (seq 0 n)) with
  | Some (i, v) =>
      (i < n)%nat ∧
      ∃ arg, vmArgs !! i = Some arg ∧ contains prefix arg = true ∧
             v = string_drop (String.length prefix) arg ∧
             ∀ j b, (i < j)%nat → (j < n)%nat →
                    vmArgs !! j = Some b → contains prefix b = false
  | None =>
      ∀ j b, (j < n)%nat → vmArgs !! j = Some b → contains prefix b = false
  end.
Proof.
  induction n as [|n IH]; intros Hn.
  - simpl. intros j b Hj. lia.
  - rewrite seq_S, rev_app_distr. simpl.
    destruct (lookup_lt_is_Some_2 vmArgs n) as [arg Harg]; [lia|].
    rewrite Harg. destruct (contains prefix arg) eqn:Hc.
    + split; [lia|]. exists arg. repeat split; try done.
      intros j b Hj Hj'. lia.
    + specialize (IH ltac:(lia)).
      destruct (find_path_arg_loop vmArgs prefix (rev (seq 0 n))) as [[i v]|].
      * destruct IH as (Hi & arg' & ? & ? & ? & Hafter).
        split; [lia|]. exists arg'. repeat split; try done.
        intros j b Hij Hj Hb.
        destruct (decide (j = n)) as [->|]; [congruence|].
        apply (Hafter j b); [done|lia|done].
      * intros j b Hj Hb.
        destruct (decide (j = n)) as [->|]; [congruence|].
        apply (IH j b); [lia|done].
Qed.

(** X10.  [find_path_arg] answers the greatest index, the last argument
    excluded, whose argument contains the prefix anywhere, together with
    that argument without its first [len(prefix)] characters; it answers
    [(None, None)] exactly when no argument but perhaps the last contains
    the prefix. *)
Theorem find_path_arg_finds_the_last_but_one
    (vmArgs : list string) (prefix : string) :
  match find_path_arg vmArgs prefix with
  | Some (i, v) =>
      (i + 1 < length vmArgs)%nat ∧
      ∃ arg, vmArgs !! i = Some arg ∧ contains prefix arg = true ∧
             v = string_drop (String.length prefix) arg ∧
             ∀ j b, (i < j)%nat → (j + 1 < length vmArgs)%nat →
                    vmArgs !! j = Some b → contains prefix b = false
  | None =>
      ∀ j b, (j + 1 < length vmArgs)%nat →
             vmArgs !! j = Some b → contains prefix b = false
  end.
Proof.
  unfold find_path_arg.
  pose proof (find_path_arg_loop_down vmArgs prefix (length vmArgs - 1)
                ltac:(lia)) as H.
  destruct (find_path_arg_loop vmArgs prefix _) as [[i v]|].
  - destruct H as (Hi & arg & ? & ? & ? & Hafter).
    split; [lia|]. exists arg. repeat split; try done.
    intros j b Hij Hj. apply Hafter; [done|lia].
  - intros j b Hj. apply H. lia.
Qed.

Lemma find_path_arg_loop_ext (l l' : list string) (prefix : string)
    (indices : list nat) :
  Forall (λ i, l !! i = l' !! i) indices →
  find_path_arg_loop l prefix indices = find_path_arg_loop l' prefix indices.
Proof.
  induction 1 as [|i indices Hi _ IH]; simpl; [done|].
  by rewrite Hi, IH.
Qed.

(** X11.  The last argument is never looked at: replacing it changes
    nothing in what [find_path_arg] answers, and among one argument
    nothing is ever found. *)
Theorem find_path_arg_skips_the_last
    (vmArgs : list string) (x y prefix : string) :
  find_path_arg (vmArgs ++ [x]) prefix = find_path_arg (vmArgs ++ [y]) prefix
  ∧ find_path_arg [x] prefix = None.
Proof.
  split; [|done]. unfold find_path_arg. rewrite !length_app. simpl.
  replace (length vmArgs + 1 - 1)%nat with (length vmArgs) by lia.
  apply find_path_arg_loop_ext, Forall_forall.
  intros i Hi%list_elem_of_In%in_rev%in_seq.
  by rewrite !lookup_app_l by lia.
Qed.

Lemma too_long_inner (filenames acc : list pystr) :
  fold_left
    (λ too_long filename,
       if (max_length <? length filename)%nat
       then too_long ++ [filename] else too_long)
    filenames acc =
  acc ++ List.filter (λ f, (max_length <? length f)%nat) filenames.
Proof.
  revert acc. induction filenames as [|f l IH]; intros acc; simpl.
  - by rewrite app_nil_r.
  - rewrite IH. destruct (max_length <? length f)%nat; [|done].
    by rewrite <- app_assoc.
Qed.

Lemma too_long_outer (walk : list (pystr * list pystr * list pystr))
    (acc : list pystr) :
  fold_left
    (λ too_long '(_, _, filenames),
       fold_left
         (λ too_long filename,
            if (max_length <? length filename)%nat
            then too_long ++ [filename] else too_long)
         filenames too_long)
    walk acc =
  acc ++ List.filter (λ f, (max_length <? length f)%nat)
           (concat (map snd walk)).
Proof.
  revert acc. induction walk as [|[[root dirs] files] walk IH]; intros acc; simpl.
  - by rewrite app_nil_r.
  - rewrite IH, too_long_inner, List.filter_app. by rewrite <- app_assoc.
Qed.

Lemma too_long_names_filter (walk : list (pystr * list pystr * list pystr)) :
  too_long_names walk =
  List.filter (λ f, (max_length <? length f)%nat) (concat (map snd walk)).
Proof. unfold too_long_names. by rewrite too_long_outer. Qed.

(** X12.  [check_filename_length] passes without a word exactly when no
    file name of the walk has more than 143 characters (143 itself is
    accepted), a character being a code point whatever the number of
    bytes it takes on disk; otherwise it aborts after having reported,
    below one header line, the names that are too long, each as often as
    the walk meets it and in the order of the walk. *)
Theorem check_filename_length_limit
    (walk : list (pystr * list pystr * list pystr)) :
  (check_filename_length walk = ([], None) ↔
   ∀ root dirs files f,
     (root, dirs, files) ∈ walk → f ∈ files → (length f ≤ 143)%nat)
  ∧ (check_filename_length walk ≠ ([], None) →
     check_filename_length walk =
     (codes "The following file names are too long for eCryptfs: " ::
        List.filter (λ f, (143 <? length f)%nat) (concat (map snd walk)),
      Some "File names that are too long where found. Ensure all file names are under 143 characters long.")).
Proof.
  unfold check_filename_length. rewrite too_long_names_filter.
  change max_length with 143%nat.
  set (names := concat (map snd walk)).
  set (long := List.filter (λ f : list N, (143 <? length f)%nat) names).
  assert (Hnames : ∀ f, In f names ↔
            ∃ root dirs files, (root, dirs, files) ∈ walk ∧ f ∈ files).
  { intros f. unfold names. rewrite in_concat. split.
    - intros (files & Hin & Hf). apply in_map_iff in Hin as ([[root dirs] fs] & <- & Hw).
      exists root, dirs, fs. by rewrite !list_elem_of_In.
    - intros (root & dirs & files & Hw & Hf). exists files.
      apply list_elem_of_In in Hw. apply list_elem_of_In in Hf. split; [|done].
      apply in_map_iff. by exists (root, dirs, files). }
  split.
  - split.
    + intros Hnil root dirs files f Hw Hf.
      destruct long as [|x l] eqn:E; [|done].
      destruct (Nat.ltb_spec 143 (length f)) as [Hlt|]; [|done].
      assert (In f long) as Hin.
      { apply filter_In. split; [apply Hnames; eauto|]. by apply Nat.ltb_lt. }
      rewrite E in Hin. done.
    + intros Hall.
      destruct long as [|x l] eqn:E; [done|]. exfalso.
      assert (In x long) as Hin by (rewrite E; by left).
      apply filter_In in Hin as [Hin Hlt]. apply Nat.ltb_lt in Hlt.
      apply Hnames in Hin as (root & dirs & files & Hw & Hf).
      specialize (Hall _ _ _ _ Hw Hf). lia.
  - by destruct long.
Qed.

Lemma check_filename_length_limit_witness :
  check_filename_length long_name_walk =
  ([codes "The following file names are too long for eCryptfs: "; long_name],
   Some "File names that are too long where found. Ensure all file names are under 143 characters long.")
  ∧ check_filename_length wide_name_walk = ([], None).
Proof.
  split.
  - destruct (check_filename_length_limit long_name_walk) as [_ H].
    rewrite H.
    + vm_compute. reflexivity.
    + vm_compute. discriminate.
  - apply (check_filename_length_limit wide_name_walk).
    intros root dirs files f Hw Hf.
    apply list_elem_of_singleton in Hw. injection Hw as -> -> ->.
    apply list_elem_of_singleton in Hf. subst f. vm_compute. lia.
Defined.

(** *** [mx tck] *)

Lemma last_stop_split (stop : string → bool) (l : list string) :
  Forall (λ a, stop a = false) l ∨
  ∃ pre a suf, l = pre ++ a :: suf ∧ stop a = true ∧
               Forall (λ b, stop b = false) suf.
Proof.
  induction l as [|a l [IH|(pre & x & suf & -> & Hx & Hsuf)]].
  - left. constructor.
  - destruct (stop a) eqn:Ha.
    + right. by exists [], a, l.
    + left. by constructor.
  - right. by exists (a :: pre), x, suf.
Qed.

Lemma tests_index_skip (suf rest : list string) (n : nat) :
  Forall (λ a, String.prefix "-" a = false) suf →
  tests_index (rev suf ++ rest) n = tests_index rest (n - length suf).
Proof.
  intros H. revert rest n. induction H as [|a suf Ha _ IH]; intros rest n.
  - simpl. by rewrite Nat.sub_0_r.
  - simpl rev. rewrite <- app_assoc. simpl app. rewrite IH. simpl.
    rewrite Ha. f_equal. lia.
Qed.

Lemma separator_index_skip (suf rest : list string) (n : nat) :
  Forall (λ a, String.prefix "--" a = false) suf →
  separator_index (rev suf ++ rest) n = separator_index rest (n - length suf).
Proof.
  intros H. revert rest n. induction H as [|a suf Ha _ IH]; intros rest n.
  - simpl. by rewrite Nat.sub_0_r.
  - simpl rev. rewrite <- app_assoc. simpl app. rewrite IH. simpl.
    rewrite Ha. f_equal. lia.
Qed.

Lemma tck_split_tests_plain (suf : list string) :
  Forall (λ a, String.prefix "-" a = false) suf →
  tck_split_tests suf = ([], suf).
Proof.
  intros H. unfold tck_split_tests.
  rewrite <- (app_nil_r (rev suf)), tests_index_skip by done. simpl.
  rewrite Nat.sub_diag, firstn_all. done.
Qed.

Lemma tck_split_tests_at (pre suf : list string) (x : string) :
  String.prefix "-" x = true →
  Forall (λ a, String.prefix "-" a = false) suf →
  tck_split_tests (pre ++ x :: suf) = (pre ++ [x], suf).
Proof.
  intros Hx H. unfold tck_split_tests.
  rewrite rev_app_distr. simpl rev. rewrite <- app_assoc. simpl app.
  rewrite tests_index_skip by done. simpl. rewrite Hx.
  rewrite firstn_all, length_app. simpl.
  replace (length pre + S (length suf) - length suf)%nat
    with (length (pre ++ [x])) by (rewrite length_app; simpl; lia).
  replace (pre ++ x :: suf) with ((pre ++ [x]) ++ suf)
    by (by rewrite <- app_assoc).
  by rewrite take_app_length, drop_app_length.
Qed.

Lemma tck_split_options_plain (suf : list string) :
  Forall (λ a, String.prefix "--" a = false) suf →
  tck_split_options suf = ([], suf, false).
Proof.
  intros H. unfold tck_split_options.
  rewrite <- (app_nil_r (rev suf)), separator_index_skip by done. simpl.
  rewrite Nat.sub_diag, firstn_all. done.
Qed.

Lemma tck_split_options_at (pre suf : list string) (x : string) :
  String.prefix "--" x = true →
  Forall (λ a, String.prefix "--" a = false) suf →
  tck_split_options (pre ++ x :: suf) =
  (if String.eqb x "--" then pre else pre ++ [x], suf, String.eqb x "--").
Proof.
  intros Hx H. unfold tck_split_options.
  rewrite rev_app_distr. simpl rev. rewrite <- app_assoc. simpl app.
  rewrite separator_index_skip by done. simpl separator_index. rewrite Hx.
  rewrite firstn_all, length_app. simpl length.
  replace (length pre + S (length suf) - length suf)%nat
    with (length (pre ++ [x])) by (rewrite length_app; simpl; lia).
  replace (pre ++ x :: suf) with ((pre ++ [x]) ++ suf)
    by (by rewrite <- app_assoc).
  rewrite drop_app_length. f_equal. f_equal.
  destruct (String.eqb x "--").
  - rewrite Nat.max_0_r, length_app. simpl.
    replace (length pre + 1 - 1)%nat with (length pre) by lia.
    by rewrite <- !app_assoc, take_app_length.
  - by rewrite Nat.max_0_r, Nat.sub_0_r, take_app_length.
Qed.

(** X13.  [_tck] takes as tests the arguments that follow the last
    argument starting with a dash: the two parts make up the command
    line again, no test starts with a dash, and what precedes the tests
    is empty or ends with an argument starting with a dash. *)
Theorem tck_tests_are_the_trailing_plain_arguments (args : list string) :
  (tck_split_tests args).1 ++ (tck_split_tests args).2 = args ∧
  Forall (λ x, String.prefix "-" x = false) (tck_split_tests args).2 ∧
  ((tck_split_tests args).1 = [] ∨
   ∃ pre x, (tck_split_tests args).1 = pre ++ [x] ∧ String.prefix "-" x = true).
Proof.
  destruct (last_stop_split (String.prefix "-") args)
    as [H|(pre & x & suf & -> & Hx & Hsuf)].
  - rewrite tck_split_tests_plain by done. simpl. auto.
  - rewrite tck_split_tests_at by done. simpl.
    split; [by rewrite <- app_assoc|]. split; [done|]. right. eauto.
Qed.

(** X14.  What precedes the tests is cut at its last argument starting
    with two dashes.  If that argument is [--], the unittest options are
    what precedes it and the VM options what follows it; if it is another
    option, it is the last unittest option and the VM options are what
    follows it; if there is none, everything is a VM option.  In other
    words: the unittest options, the separator if it was found, and the
    VM options make up the arguments again; no VM option starts with two
    dashes; and when no separator was found the unittest options are
    empty or end with an argument that starts with two dashes and is not
    [--].  No other cut has these properties. *)
Theorem tck_options_reassemble (args_no_tests : list string) :
  (let '(unitTestOptions, jvmOptions, has_separator_arg) :=
     tck_split_options args_no_tests in
   unitTestOptions ++ (if has_separator_arg then ["--"] else []) ++ jvmOptions
     = args_no_tests ∧
   Forall (λ x, String.prefix "--" x = false) jvmOptions ∧
   (has_separator_arg = false →
    unitTestOptions = [] ∨
    ∃ pre x, unitTestOptions = pre ++ [x] ∧
             String.prefix "--" x = true ∧ x ≠ "--"))
  ∧ ∀ u j (sep : bool),
      u ++ (if sep then ["--"] else []) ++ j = args_no_tests →
      Forall (λ x, String.prefix "--" x = false) j →
      (sep = false →
       u = [] ∨ ∃ pre x, u = pre ++ [x] ∧
                         String.prefix "--" x = true ∧ x ≠ "--") →
      tck_split_options args_no_tests = (u, j, sep).
Proof.
  split.
  - destruct (last_stop_split (String.prefix "--") args_no_tests)
      as [H|(pre & x & suf & -> & Hx & Hsuf)].
    + rewrite tck_split_options_plain by done. simpl. auto.
    + rewrite tck_split_options_at by done.
      destruct (String.eqb_spec x "--") as [->|Hne].
      * split; [done|]. split; [done|]. done.
      * split; [by rewrite <- app_assoc|]. split; [done|].
        intros _. right. by exists pre, x.
  - intros u j sep Hre Hj Hu. subst args_no_tests. destruct sep.
    + simpl. rewrite tck_split_options_at by done. done.
    + simpl. destruct Hu as [->|(pre & x & -> & Hx & Hne)]; [done| |].
      * simpl. by apply tck_split_options_plain.
      * rewrite <- app_assoc. simpl.
        rewrite tck_split_options_at by done.
        by destruct (String.eqb_spec x "--").
Qed.

(** X15.  The documented form of the command line comes out as written:
    unittest options, [--], VM options none of which starts with two
    dashes and the last of which starts with a dash, then tests none of
    which starts with a dash, are handed to [unittest] in that order, the
    default tests standing in when none is given. *)
Theorem tck_default_call
    (is_graalvm : bool) (tmpPath : string)
    (unitTestOptions jvmOptions tests : list string) :
  Forall (λ x, String.prefix "--" x = false) jvmOptions →
  (jvmOptions = [] ∨
   ∃ pre x, jvmOptions = pre ++ [x] ∧ String.prefix "-" x = true) →
  Forall (λ x, String.prefix "-" x = false) tests →
  tck Default is_graalvm tmpPath
    (unitTestOptions ++ ["--"] ++ jvmOptions ++ tests) =
  Unittest (unitTestOptions ++ ["--"] ++ jvmOptions ++
            match tests with
            | [] => ["com.oracle.truffle.tck.tests"]
            | _ => tests
            end).
Proof.
  intros Hj Hlast Ht. unfold tck.
  assert (Hsplit : tck_split_tests (unitTestOptions ++ ["--"] ++ jvmOptions ++ tests)
                   = (unitTestOptions ++ ["--"] ++ jvmOptions, tests)).
  { destruct Hlast as [->|(pre & x & -> & Hx)].
    - simpl. by rewrite tck_split_tests_at.
    - replace (unitTestOptions ++ ["--"] ++ (pre ++ [x]) ++ tests)
        with ((unitTestOptions ++ ["--"] ++ pre) ++ x :: tests)
        by (by rewrite <- !app_assoc).
      rewrite tck_split_tests_at by done. by rewrite <- !app_assoc. }
  rewrite Hsplit.
  change (unitTestOptions ++ ["--"] ++ jvmOptions)
    with (unitTestOptions ++ "--" :: jvmOptions).
  rewrite tck_split_options_at by done. simpl.
  by destruct tests.
Qed.

Lemma tck_default_call_witness :
  tck Default false "/tmp/debugalot"
    ["--verbose"; "--"; "-Xmx2g"; "-ea"; "SLTckTest"] =
  Unittest ["--verbose"; "--"; "-Xmx2g"; "-ea"; "SLTckTest"].
Proof.
  apply (tck_default_call false "/tmp/debugalot" ["--verbose"]
           ["-Xmx2g"; "-ea"] ["SLTckTest"]).
  - repeat constructor.
  - right. by exists ["-Xmx2g"], "-ea".
  - repeat constructor.
Defined.

(** * The archive participant *)

Section ArchiveParticipant.

Import Registrations.

Lemma register_fold_lookup (provider : string) (lines : list string)
    (d : gmap string (list string)) (s : string) :
  fold_left (register provider) lines d !! s =
  if decide (s ∈ lines)
  then Some (default [] (d !! s) ++ replicate (count_occ string_dec lines s) provider)
  else d !! s.
Proof.
  revert d. induction lines as [|a lines IH]; intros d; cbn [fold_left].
  - rewrite decide_False by apply not_elem_of_nil. done.
  - rewrite IH. unfold register. cbn [count_occ].
    destruct (string_dec a s) as [->|Hne].
    + rewrite lookup_insert_eq. cbn [default].
      rewrite (decide_True (P := s ∈ s :: lines)) by (by left).
      destruct (decide (s ∈ lines)) as [Hin|Hin].
      * unfold id. by rewrite <- app_assoc.
      * destruct (count_occ_not_In string_dec lines s) as [Hc _].
        rewrite Hc by (by rewrite <- list_elem_of_In). done.
    + rewrite lookup_insert_ne by done.
      destruct (decide (s ∈ lines)) as [Hin|Hin].
      * rewrite decide_True by (by right). done.
      * rewrite decide_False; [done|].
        intros [->|]%elem_of_cons; done.
Qed.

Lemma process_lines_unversioned (provider : string) (lines : list string)
    (sv : services) :
  Forall (λ l, l ≠ "") lines →
  process_lines None provider lines sv =
  (Ok true, {| unversioned := fold_left (register provider) lines (unversioned sv);
               versioned := versioned sv |}).
Proof.
  intros H. revert sv. induction H as [|a lines Ha _ IH]; intros sv; simpl.
  - by destruct sv.
  - destruct (String.eqb_spec a ""); [done|]. by rewrite IH.
Qed.

Lemma process_lines_versioned (v provider : string) (lines : list string)
    (sv : services) :
  Forall (λ l, l ≠ "") lines → lines ≠ [] →
  process_lines (Some v) provider lines sv =
  (Ok true,
   {| unversioned := unversioned sv;
      versioned :=
        <[int_of_digits v :=
            fold_left (register provider) lines
              (default ∅ (versioned sv !! int_of_digits v))]> (versioned sv) |}).
Proof.
  intros H. revert sv. induction H as [|a lines Ha Hl IH]; intros sv Hne; [done|].
  simpl. destruct (String.eqb_spec a ""); [done|].
  destruct lines as [|b lines]; [done|].
  rewrite IH by done. simpl. rewrite lookup_insert_eq. simpl.
  by rewrite insert_insert_eq.
Qed.

Lemma process_lines_stops (version : option string) (provider : string)
    (before after : list string) (sv : services) :
  Forall (λ l, l ≠ "") before →
  process_lines version provider (before ++ "" :: after) sv =
  (Raise (AssertionError ""), (process_lines version provider before sv).2).
Proof.
  intros H. revert sv. induction H as [|a lines Ha _ IH]; intros sv; simpl.
  - done.
  - destruct (String.eqb_spec a ""); [done|]. apply IH.
Qed.

Lemma split_from_not_nil (sep : string) (skip : nat) (s : string) :
  split_from sep skip s ≠ [].
Proof.
  revert skip. induction s as [|c r IH]; intros skip; [done|].
  cbn [split_from]. destruct skip as [|k]; [|apply IH].
  destruct (String.prefix sep (String c r)); [done|].
  specialize (IH 0%nat). by destruct (split_from sep 0 r).
Qed.

Lemma split_lines_not_nil (h : host) (s : string) : split_lines h s ≠ [].
Proof. apply split_from_not_nil. Qed.

Lemma prefix_app_l (a b s : string) :
  String.prefix (a +:+ b) s = true → String.prefix a s = true.
Proof.
  revert s. induction a as [|c a IH]; intros s; [by destruct s|].
  change (String c a +:+ b) with (String c (a +:+ b)).
  destruct s as [|c' s]; simpl; [done|].
  destruct (ascii_dec c c'); [apply IH|done].
Qed.

Lemma registration_name_matches (provider : string) :
  provider ≠ "" → line_of provider = provider →
  providers_match ("META-INF/truffle-registrations/" +:+ provider) =
  Some (None, provider).
Proof.
  intros Hne Hline. unfold providers_match.
  change (strip_prefix "META-INF/versions/"
            ("META-INF/truffle-registrations/" +:+ provider)) with (@None string).
  simpl.
  replace (strip_prefix "META-INF/truffle-registrations/"
             ("META-INF/truffle-registrations/" +:+ provider))
    with (Some provider).
  - simpl. unfold dot_plus. rewrite Hline. by destruct provider.
  - unfold strip_prefix. rewrite prefix_app. done.
Qed.

(** X16.  An entry [META-INF/truffle-registrations/<provider>] that is
    not a source, whose contents are ASCII and hold a service on every
    line once stripped and split at the line separator of the host, is
    consumed: the provider is appended to the list of each service as
    often as the service is listed, the lists of the other services and
    the versioned services are as before. *)
Theorem process_registers_the_provider
    (h : host) (provider contents : string) (sv : services) :
  provider ≠ "" →
  line_of provider = provider →
  ascii_only contents = true →
  Forall (λ l, l ≠ "") (split_lines h (strip contents)) →
  let lines := split_lines h (strip contents) in
  let r := process h ("META-INF/truffle-registrations/" +:+ provider)
             contents false sv in
  r.1 = Ok true ∧
  versioned r.2 = versioned sv ∧
  ∀ service,
    unversioned r.2 !! service =
    if decide (service ∈ lines)
    then Some (default [] (unversioned sv !! service) ++
               replicate (count_occ string_dec lines service) provider)
    else unversioned sv !! service.
Proof.
  intros Hne Hline _ Hlines lines r. unfold r, process.
  rewrite registration_name_matches by done.
  rewrite process_lines_unversioned by done. simpl.
  split; [done|]. split; [done|]. intros service.
  apply register_fold_lookup.
Qed.

(** X17.  An entry recognised with a version, with ASCII contents and a
    service on every line, registers its provider in the dictionary of
    that version only: the services without version and the dictionaries
    of the other versions are as before. *)
Theorem process_versioned_registration
    (h : host) (arcname contents version provider : string) (sv : services) :
  providers_match arcname = Some (Some version, provider) →
  ascii_only contents = true →
  Forall (λ l, l ≠ "") (split_lines h (strip contents)) →
  let lines := split_lines h (strip contents) in
  let n := int_of_digits version in
  let r := process h arcname contents false sv in
  r.1 = Ok true ∧
  unversioned r.2 = unversioned sv ∧
  (∀ k, k ≠ n → versioned r.2 !! k = versioned sv !! k) ∧
  ∃ d, versioned r.2 !! n = Some d ∧
       ∀ service,
         d !! service =
         if decide (service ∈ lines)
         then Some (default [] (default ∅ (versioned sv !! n) !! service) ++
                    replicate (count_occ string_dec lines service) provider)
         else default ∅ (versioned sv !! n) !! service.
Proof.
  intros Hm _ Hlines lines n r. unfold r, process. rewrite Hm.
  rewrite process_lines_versioned by (done || apply split_lines_not_nil).
  simpl. split; [done|]. split; [done|]. split.
  - intros k Hk. by rewrite lookup_insert_ne.
  - eexists. split; [apply lookup_insert_eq|].
    intros service. apply register_fold_lookup.
Qed.

(** X18.  A blank line in a recognised entry of ASCII contents makes
    [__process__] raise its assertion, after the services listed before
    the blank line have been registered; an entry that is empty once
    stripped raises it with the services untouched. *)
Theorem process_stops_at_a_blank_line
    (h : host) (arcname contents : string) (version : option string)
    (provider : string) (before after : list string) (sv : services) :
  providers_match arcname = Some (version, provider) →
  ascii_only contents = true →
  split_lines h (strip contents) = before ++ "" :: after →
  Forall (λ l, l ≠ "") before →
  process h arcname contents false sv =
    (Raise (AssertionError ""), (process_lines version provider before sv).2)
  ∧ (strip contents = "" → process h arcname contents false sv =
                            (Raise (AssertionError ""), sv)).
Proof.
  intros Hm _ Hsplit Hbefore. unfold process. rewrite Hm. split.
  - rewrite Hsplit. by apply process_lines_stops.
  - intros ->. done.
Qed.

(** X19.  Sources, and entries whose name does not start with
    [META-INF/], are not consumed and leave the services as they are. *)
Theorem process_leaves_other_entries
    (h : host) (arcname contents : string) (is_source : bool) (sv : services) :
  is_source = true ∨ String.prefix "META-INF/" arcname = false →
  process h arcname contents is_source sv = (Ok false, sv).
Proof.
  intros [->|Hp]; [done|]. unfold process.
  destruct is_source; [done|].
  assert (Hno : ∀ rest, strip_prefix ("META-INF/" +:+ rest) arcname = None).
  { intros rest. unfold strip_prefix.
    destruct (String.prefix ("META-INF/" +:+ rest) arcname) eqn:E; [|done].
    apply prefix_app_l in E. congruence. }
  unfold providers_match.
  change "META-INF/versions/" with ("META-INF/" +:+ "versions/").
  change "META-INF/truffle-registrations/"
    with ("META-INF/" +:+ "truffle-registrations/").
  by rewrite !Hno.
Qed.

End ArchiveParticipant.

Lemma process_registers_the_provider_witness :
  let r := Registrations.process Registrations.Nt
             ("META-INF/truffle-registrations/" +:+ "com.example.ExampleProvider")
             windows_services false Registrations.no_services in
  r.1 = Ok true ∧
  Registrations.unversioned r.2
    !! "com.oracle.truffle.api.instrumentation.provider.TruffleInstrumentProvider" =
  Some ["com.example.ExampleProvider"].
Proof.
  destruct (process_registers_the_provider Registrations.Nt
              "com.example.ExampleProvider" windows_services
              Registrations.no_services) as (H1 & _ & H3).
  - discriminate.
  - vm_compute. reflexivity.
  - vm_compute. reflexivity.
  - vm_compute. repeat constructor; discriminate.
  - split; [exact H1|].
    rewrite (H3 "com.oracle.truffle.api.instrumentation.provider.TruffleInstrumentProvider").
    vm_compute. reflexivity.
Defined.

Lemma process_versioned_registration_witness :
  let r := Registrations.process Registrations.Posix
             "META-INF/versions/21/META-INF/truffle-registrations/com.example.ExampleProvider"
             two_services false Registrations.no_services in
  r.1 = Ok true ∧
  Registrations.unversioned r.2 = Registrations.unversioned Registrations.no_services.
Proof.
  destruct (process_versioned_registration Registrations.Posix
              "META-INF/versions/21/META-INF/truffle-registrations/com.example.ExampleProvider"
              two_services "21" "com.example.ExampleProvider"
              Registrations.no_services) as (H1 & H2 & _).
  - vm_compute. reflexivity.
  - vm_compute. reflexivity.
  - vm_compute. repeat constructor; discriminate.
  - split; [exact H1|exact H2].
Defined.

Lemma process_stops_at_a_blank_line_witness :
  let r := Registrations.process Registrations.Posix
             "META-INF/truffle-registrations/com.example.ExampleProvider"
             blank_line_services false Registrations.no_services in
  r.1 = Raise (AssertionError "") ∧
  Registrations.unversioned r.2
    !! "com.oracle.truffle.api.provider.TruffleLanguageProvider" =
  Some ["com.example.ExampleProvider"].
Proof.
  destruct (process_stops_at_a_blank_line Registrations.Posix
              "META-INF/truffle-registrations/com.example.ExampleProvider"
              blank_line_services None "com.example.ExampleProvider"
              ["com.oracle.truffle.api.provider.TruffleLanguageProvider"]
              ["com.example.Service"] Registrations.no_services) as [H _].
  - vm_compute. reflexivity.
  - vm_compute. reflexivity.
  - vm_compute. reflexivity.
  - repeat constructor. discriminate.
  - cbv zeta. rewrite H. split; [reflexivity|]. vm_compute. reflexivity.
Defined.

Lemma process_leaves_other_entries_witness :
  Registrations.process Registrations.Posix "com/example/ExampleProvider.class"
    "" false Registrations.no_services = (Ok false, Registrations.no_services).
Proof.
  apply (process_leaves_other_entries Registrations.Posix
           "com/example/ExampleProvider.class" "" false Registrations.no_services).
  right. vm_compute. reflexivity.
Defined.

Lemma tck_options_reassemble_witness :
  tck_split_options ["--verbose"; "--regex"; "-Xmx2g"; "-ea"] =
  (["--verbose"; "--regex"], ["-Xmx2g"; "-ea"], false).
Proof.
  apply (tck_options_reassemble ["--verbose"; "--regex"; "-Xmx2g"; "-ea"]).
  - reflexivity.
  - repeat constructor.
  - intros _. right. exists ["--verbose"], "--regex". by split.
Defined.

(** * The link check *)

Section LinkCheck.

Import Links.

Lemma find_char_bounds (c : ascii) (s : string) :
  -1 ≤ find_char c s < Z.of_nat (String.length s) ∨
  (find_char c s = -1 ∧ s = "").
Proof.
  induction s as [|x r IH]; simpl; [by right|]. left.
  destruct (Ascii.eqb x c); [lia|].
  destruct (find_char c r <? 0) eqn:E; [lia|].
  apply Z.ltb_ge in E. destruct IH as [IH|[IH _]]; lia.
Qed.

Lemma find_char_lt (c : ascii) (s : string) :
  -1 ≤ find_char c s ∧ find_char c s ≤ Z.of_nat (String.length s) - 1.
Proof.
  destruct (find_char_bounds c s) as [H|[H ->]]; [lia|]. simpl in *. lia.
Qed.

(** Nothing is found in what precedes the first occurrence. *)
Lemma find_char_take (c : ascii) (s : string) (n : nat) :
  find_char c s = -1 ∨ Z.of_nat n ≤ find_char c s →
  find_char c (string_take n s) = -1.
Proof.
  revert n. induction s as [|x r IH]; intros n H; [by destruct n|].
  destruct n as [|n]; [done|]. simpl in *.
  destruct (Ascii.eqb x c); [lia|].
  destruct (find_char c r <? 0) eqn:E.
  - rewrite IH; [done|]. apply Z.ltb_lt in E.
    left. pose proof (find_char_lt c r). lia.
  - apply Z.ltb_ge in E. rewrite IH; [done|]. right. lia.
Qed.

Lemma string_take_drop (n : nat) (s : string) :
  string_take n s +:+ string_drop n s = s.
Proof.
  revert n. induction s as [|x r IH]; intros [|n]; try done.
  change (String x (string_take n r +:+ string_drop n r) = String x r).
  by rewrite IH.
Qed.

Lemma string_drop_found (c : ascii) (s : string) :
  0 ≤ find_char c s →
  string_drop (Z.to_nat (find_char c s)) s =
  String c (string_drop (Z.to_nat (find_char c s + 1)) s).
Proof.
  induction s as [|x r IH]; simpl; [lia|].
  destruct (Ascii.eqb_spec x c) as [->|Hne]; [done|].
  destruct (find_char c r <? 0) eqn:E; [lia|]. apply Z.ltb_ge in E. intros _.
  replace (Z.to_nat (find_char c r + 1)) with (S (Z.to_nat (find_char c r))) by lia.
  replace (Z.to_nat (find_char c r + 1 + 1))
    with (S (Z.to_nat (find_char c r + 1))) by lia.
  simpl. by apply IH.
Qed.

Lemma string_drop_all (s : string) : string_drop (String.length s) s = "".
Proof. induction s as [|x r IH]; [done|apply IH]. Qed.

Lemma find_char_absent (c : ascii) (s : string) :
  find_char c s = -1 ↔ ¬ occurs c s.
Proof.
  unfold occurs. induction s as [|x r IH]; simpl; [tauto|].
  pose proof (find_char_lt c r) as Hr.
  destruct (Ascii.eqb_spec x c) as [->|Hne].
  - split; [lia|]. intros H. exfalso. apply H. by left.
  - destruct (find_char c r <? 0) eqn:E;
      [apply Z.ltb_lt in E|apply Z.ltb_ge in E].
    + split; [|done]. intros _ [H|H]; [done|]. apply IH; [lia|done].
    + split; [lia|]. intros H. exfalso.
      assert (find_char c r = -1) by (apply IH; tauto). lia.
Qed.

Lemma occurs_app (c : ascii) (a b : string) :
  occurs c (a +:+ b) ↔ occurs c a ∨ occurs c b.
Proof.
  unfold occurs. induction a as [|x a IH]; [simpl; tauto|].
  change (String x a +:+ b) with (String x (a +:+ b)). simpl.
  rewrite IH. tauto.
Qed.

(** A string is cut in one way only into a part free of marks and a
    rest that is empty or starts with a mark. *)
Lemma first_mark_unique (mark : ascii → Prop) (p1 r1 p2 r2 : string) :
  p1 +:+ r1 = p2 +:+ r2 →
  (∀ c, occurs c p1 → ¬ mark c) →
  (∀ c, occurs c p2 → ¬ mark c) →
  (r1 = "" ∨ ∃ c r, r1 = String c r ∧ mark c) →
  (r2 = "" ∨ ∃ c r, r2 = String c r ∧ mark c) →
  p1 = p2 ∧ r1 = r2.
Proof.
  revert p2. induction p1 as [|c p1 IH]; intros p2 Heq H1 H2 Hr1 Hr2.
  - destruct p2 as [|c p2]; [done|]. exfalso.
    change ("" +:+ r1) with r1 in Heq.
    change (String c p2 +:+ r2) with (String c (p2 +:+ r2)) in Heq.
    destruct Hr1 as [->|(c' & r & -> & Hc)]; [done|].
    injection Heq as -> _. apply (H2 c); [by left|done].
  - destruct p2 as [|c' p2].
    + exfalso.
      change ("" +:+ r2) with r2 in Heq.
      change (String c p1 +:+ r1) with (String c (p1 +:+ r1)) in Heq.
      destruct Hr2 as [->|(c' & r & -> & Hc)]; [done|].
      injection Heq as -> _. apply (H1 c'); [by left|done].
    + change (String c p1 +:+ r1) with (String c (p1 +:+ r1)) in Heq.
      change (String c' p2 +:+ r2) with (String c' (p2 +:+ r2)) in Heq.
      injection Heq as -> Heq.
      destruct (IH p2 Heq) as [-> ->]; try done.
      * intros x Hx. apply H1. by right.
      * intros x Hx. apply H2. by right.
Qed.

(** What [split_link] answers has the properties that single it out. *)
Lemma split_link_sound (full : string) :
  let '(path, section) := split_link full in
  (∃ rest, full = path +:+ rest ∧ at_mark rest) ∧
  ¬ occurs "#" path ∧
  ¬ occurs "?" path ∧
  match section with
  | None => ¬ occurs "#" full
  | Some s => ∃ before, full = before +:+ String "#" s ∧ ¬ occurs "#" before
  end.
Proof.
  unfold split_link.
  pose proof (find_char_lt "#" full) as Hs.
  pose proof (find_char_lt "?" full) as Hq.
  pose proof (string_drop_found "#" full) as Ds.
  pose proof (string_drop_found "?" full) as Dq.
  pose proof (proj1 (find_char_absent "#" full)) as As.
  set (si := find_char "#" full) in *. set (qi := find_char "?" full) in *.
  set (m0 := if si <? 0 then Z.of_nat (String.length full) else si).
  set (m := if (0 <=? qi) && (qi <? m0) then qi else m0).
  assert (Hm0 : 0 ≤ m0 ∧ (si = -1 ∨ m0 ≤ si)).
  { unfold m0. destruct (si <? 0) eqn:E; [apply Z.ltb_lt in E|apply Z.ltb_ge in E]; lia. }
  assert (Hm : 0 ≤ m ∧ (si = -1 ∨ m ≤ si) ∧ (qi = -1 ∨ m ≤ qi)).
  { unfold m. destruct (0 <=? qi) eqn:E1; simpl.
    - apply Z.leb_le in E1.
      destruct (qi <? m0) eqn:E2; [apply Z.ltb_lt in E2|apply Z.ltb_ge in E2]; lia.
    - apply Z.leb_gt in E1. lia. }
  assert (Hrest : at_mark (string_drop (Z.to_nat m) full)).
  { unfold m. destruct ((0 <=? qi) && (qi <? m0)) eqn:E.
    - apply andb_true_iff in E as [E _]. apply Z.leb_le in E.
      right. rewrite Dq by done. eexists _, _. split; [done|by right].
    - unfold m0. destruct (si <? 0) eqn:E'.
      + left. rewrite Nat2Z.id. apply string_drop_all.
      + apply Z.ltb_ge in E'. right. rewrite Ds by done.
        eexists _, _. split; [done|by left]. }
  assert (Hpath : (∃ rest, full = string_take (Z.to_nat m) full +:+ rest ∧
                           at_mark rest) ∧
                  ¬ occurs "#" (string_take (Z.to_nat m) full) ∧
                  ¬ occurs "?" (string_take (Z.to_nat m) full)).
  { split; [|split].
    - eexists. split; [symmetry; apply string_take_drop|done].
    - apply find_char_absent, find_char_take. fold si. lia.
    - apply find_char_absent, find_char_take. fold qi. lia. }
  destruct Hpath as (Hp1 & Hp2 & Hp3).
  destruct (0 <=? si) eqn:E; [apply Z.leb_le in E|apply Z.leb_gt in E].
  - repeat split; try done.
    exists (string_take (Z.to_nat si) full). split.
    + rewrite <- Ds by done. symmetry. apply string_take_drop.
    + apply find_char_absent, find_char_take. fold si. lia.
  - repeat split; try done. apply As. lia.
Qed.

(** X20.  The path a link is filed under is what precedes the first [#]
    or [?] of the reference, whichever comes first: the reference is the
    path followed by nothing or by a rest that starts with [#] or [?],
    and the path holds neither.  A section is recorded exactly when the
    reference has a [#], and is all that follows the first [#].  These
    properties hold of what [split_link] answers and of nothing else. *)
Theorem split_link_path_and_section
    (full path : string) (section : option string) :
  split_link full = (path, section) ↔
  (∃ rest, full = path +:+ rest ∧ at_mark rest) ∧
  ¬ occurs "#" path ∧
  ¬ occurs "?" path ∧
  match section with
  | None => ¬ occurs "#" full
  | Some s => ∃ before, full = before +:+ String "#" s ∧ ¬ occurs "#" before
  end.
Proof.
  pose proof (split_link_sound full) as Hsound.
  destruct (split_link full) as [path0 section0].
  split; [by intros [= <- <-]|].
  destruct Hsound as ((rest0 & Hfull0 & Hrest0) & Hs0 & Hq0 & Hsec0).
  intros ((rest & Hfull & Hrest) & Hs & Hq & Hsec).
  assert (Hpath : path0 = path).
  { apply (first_mark_unique (λ c, c = "#"%char ∨ c = "?"%char)
             path0 rest0 path rest).
    - congruence.
    - intros c Hc [->| ->]; done.
    - intros c Hc [->| ->]; done.
    - exact Hrest0.
    - exact Hrest. }
  f_equal; [done|].
  destruct section0 as [s0|], section as [s|].
  - destruct Hsec0 as (b0 & Hb0 & Hn0). destruct Hsec as (b & Hb & Hn).
    destruct (first_mark_unique (λ c, c = "#"%char) b0 (String "#" s0)
                b (String "#" s)) as [_ Heq].
    + congruence.
    + intros c Hc ->. done.
    + intros c Hc ->. done.
    + right. by eexists _, _.
    + right. by eexists _, _.
    + by injection Heq as ->.
  - exfalso. destruct Hsec0 as (b0 & Hb0 & _). apply Hsec.
    rewrite Hb0. apply occurs_app. right. by left.
  - exfalso. destruct Hsec as (b & Hb & _). apply Hsec0.
    rewrite Hb. apply occurs_app. right. by left.
  - done.
Qed.

Lemma dict_get_set {V} (d : list (string * V)) (k q : string) (v def : V) :
  dict_get (dict_set d k v) q def =
  if String.eqb k q then v else dict_get d q def.
Proof.
  induction d as [|[k' v'] d IH]; simpl.
  - done.
  - destruct (String.eqb_spec k' k) as [->|Hne]; simpl.
    + by destruct (String.eqb k q).
    + rewrite IH. destruct (String.eqb_spec k' q) as [->|]; [|done].
      destruct (String.eqb_spec k q); [congruence|done].
Qed.

Lemma dict_get_in {V} (d : list (string * V)) (k : string) (x : V) :
  (k, x) ∈ d → (k, dict_get d k x) ∈ d.
Proof.
  induction d as [|[k' v'] d IH]; simpl; [done|].
  intros H. destruct (String.eqb_spec k' k) as [->|Hne]; [by left|].
  right. apply IH. apply elem_of_cons in H as [[=]|]; [congruence|done].
Qed.

Lemma dict_get_elem {V} (d : list (string * list V)) (k : string) (x : V) :
  x ∈ dict_get d k [] → (k, dict_get d k []) ∈ d.
Proof.
  induction d as [|[k' v'] d IH]; simpl; [by intros ?%elem_of_nil|].
  destruct (String.eqb_spec k' k) as [->|Hne]; [by left|]. right. by apply IH.
Qed.

Lemma in_dict_set {V} (d : list (string * V)) (k q : string) (v w : V) :
  (q, w) ∈ dict_set d k v → (q = k ∧ w = v) ∨ (q, w) ∈ d.
Proof.
  induction d as [|[k' v'] d IH]; simpl.
  - intros [[= -> ->]|?%elem_of_nil]%elem_of_cons; [by left|done].
  - destruct (String.eqb_spec k' k) as [->|Hne].
    + intros [[= -> ->]|H]%elem_of_cons; [by left|]. right. by right.
    + intros [[= -> ->]|H]%elem_of_cons; [right; by left|].
      destruct (IH H) as [?|?]; [by left|]. right. by right.
Qed.

(** What [filesToCheck] holds comes from the links, and every link is
    filed under its path. *)
Lemma files_to_check_spec (links : list (string * string)) :
  (∀ p secs h sec, (p, secs) ∈ files_to_check links → (h, sec) ∈ secs →
     ∃ full, (h, full) ∈ links ∧ split_link full = (p, sec)) ∧
  (∀ p secs, (p, secs) ∈ files_to_check links → secs ≠ []) ∧
  (∀ h full, (h, full) ∈ links →
     (h, (split_link full).2) ∈ dict_get (files_to_check links) (split_link full).1 []).
Proof.
  unfold files_to_check.
  induction links as [|[h0 full0] links IH] using rev_ind.
  - simpl. split; [|split]; intros; by apply elem_of_nil in H.
  - rewrite fold_left_app. simpl.
    destruct IH as (IH1 & IH2 & IH3).
    set (d := fold_left _ links []) in *.
    destruct (split_link full0) as [p0 sec0] eqn:E0.
    split; [|split].
    + intros p secs h sec Hin Hsec.
      apply in_dict_set in Hin as [[-> ->]|Hin].
      * apply elem_of_app in Hsec as [Hsec|Hsec].
        -- destruct (IH1 p0 _ h sec (dict_get_elem _ _ _ Hsec) Hsec)
             as (full & Hl & Hs).
           exists full. split; [|done]. apply elem_of_app. by left.
        -- apply list_elem_of_singleton in Hsec as [= -> ->].
           exists full0. split; [|done]. apply elem_of_app. right. by left.
      * destruct (IH1 p secs h sec Hin Hsec) as (full & Hl & Hs).
        exists full. split; [|done]. apply elem_of_app. by left.
    + intros p secs Hin.
      apply in_dict_set in Hin as [[-> ->]|Hin]; [|by eapply IH2].
      by destruct (dict_get d p0 []).
    + intros h full Hin. rewrite dict_get_set.
      apply elem_of_app in Hin as [Hin|Hin].
      * specialize (IH3 h full Hin).
        destruct (String.eqb_spec p0 (split_link full).1) as [->|]; [|done].
        apply elem_of_app. by left.
      * apply list_elem_of_singleton in Hin as [= -> ->]. rewrite E0. simpl.
        rewrite String.eqb_refl. apply elem_of_app. right. by left.
Qed.

Lemma check_sections_err (f content : string)
    (sections : list (string * option string)) (w : list string) (err : bool) :
  (check_sections f content sections w err).2 = false ↔
  err = false ∧ ∀ h s, (h, Some s) ∈ sections → has_section content s = true.
Proof.
  revert w err. induction sections as [|[h [s|]] l IH]; intros w err; simpl.
  - split; [intros ->; split; [done|]; intros ?? ?%elem_of_nil; done|by intros [-> _]].
  - destruct (has_section content s) eqn:E; simpl; rewrite IH.
    + split; intros [-> H]; (split; [done|]).
      * intros h' s' [[= -> ->]|?]%elem_of_cons; eauto.
      * intros h' s' Hin. apply (H h'). by right.
    + split; [by intros [? _]|]. intros [_ H].
      specialize (H h s ltac:(by left)). congruence.
  - rewrite IH. split; intros [-> H]; (split; [done|]).
    + intros h' s' [[=]|?]%elem_of_cons; eauto.
    + intros h' s' Hin. apply (H h'). by right.
Qed.

Lemma check_files_passed (read : string → target)
    (d : list (string * list (string * option string)))
    (w : list string) (err : bool) :
  (∀ p secs, (p, secs) ∈ d → read p ≠ Directory) →
  (check_files read d w err).2 = Passed ↔
  err = false ∧
  ∀ p secs, (p, secs) ∈ d →
    is_external p = true ∨
    ∃ content, read p = Page content ∧
               ∀ h s, (h, Some s) ∈ secs → has_section content s = true.
Proof.
  revert w err. induction d as [|[p secs] d IH]; intros w err Hdir; simpl.
  - destruct err; split; try done.
    + by intros [? _].
    + intros _. split; [done|]. intros ?? ?%elem_of_nil. done.
  - assert (Hdir' : ∀ p' secs', (p', secs') ∈ d → read p' ≠ Directory)
      by (intros p' secs' H; apply (Hdir p' secs'); by right).
    destruct (is_external p) eqn:Eext.
    { rewrite IH by done. split; intros [-> H]; (split; [done|]).
      - intros p' secs' [[= -> ->]|?]%elem_of_cons; [by left|eauto].
      - intros p' secs' Hin. apply H. by right. }
    destruct (read p) as [| |content] eqn:Er.
    + rewrite IH by done. split; [by intros [? _]|]. intros [_ H].
      destruct (H p secs ltac:(by left)) as [?|(c & ? & _)]; congruence.
    + exfalso. apply (Hdir p secs); [by left|done].
    + destruct (check_sections p content secs w err) as [w' err'] eqn:Ec.
      rewrite IH by done.
      pose proof (check_sections_err p content secs w err) as Hs.
      rewrite Ec in Hs. simpl in Hs. rewrite Hs.
      split.
      * intros [[-> Hsec] H]. split; [done|].
        intros p' secs' [[= -> ->]|?]%elem_of_cons; [|eauto].
        right. eauto.
      * intros [-> H]. split; [split; [done|]|].
        -- destruct (H p secs ltac:(by left)) as [?|(c & Hc & Hok)]; [congruence|].
           rewrite Er in Hc. injection Hc as <-. done.
        -- intros p' secs' Hin. apply H. by right.
Qed.

Lemma check_files_ends (read : string → target)
    (d : list (string * list (string * option string)))
    (w : list string) (err : bool) :
  (∀ p secs, (p, secs) ∈ d → read p ≠ Directory) →
  (check_files read d w err).2 = Passed ∨
  (check_files read d w err).2 = AbortedWith "There are wrong references in Javadoc".
Proof.
  revert w err. induction d as [|[p secs] d IH]; intros w err Hdir; simpl.
  - destruct err; auto.
  - assert (Hd : ∀ p' secs', (p', secs') ∈ d → read p' ≠ Directory)
      by (intros p' secs' H; apply (Hdir p' secs'); by right).
    destruct (is_external p); [by apply IH|].
    destruct (read p) eqn:Er.
    + by apply IH.
    + exfalso. apply (Hdir p secs); [by left|done].
    + destruct (check_sections p content secs w err). by apply IH.
Qed.

(** X21.  No referenced path being a directory, [checkLinks] passes
    exactly when every link either leads outside ([javascript:],
    [http:], [https:], [mailto:]) or leads to a page that exists and, if
    the link names a section, holds an anchor [name=] or [id=] for it;
    otherwise it aborts. *)
Theorem checkLinks_passes_iff_links_resolve
    (read : string → target) (links : list (string * string)) :
  (∀ html full, (html, full) ∈ links → read (split_link full).1 ≠ Directory) →
  ((checkLinks read links).2 = Passed ↔
   ∀ html full, (html, full) ∈ links →
     is_external (split_link full).1 = true ∨
     ∃ content, read (split_link full).1 = Page content ∧
                ∀ s, (split_link full).2 = Some s → has_section content s = true)
  ∧ ((checkLinks read links).2 = Passed ∨
     (checkLinks read links).2 = AbortedWith "There are wrong references in Javadoc").
Proof.
  intros Hdir. destruct (files_to_check_spec links) as (H1 & H2 & H3).
  assert (Hdir' : ∀ p secs, (p, secs) ∈ files_to_check links → read p ≠ Directory).
  { intros p secs Hin.
    destruct secs as [|[h sec] secs']; [by apply H2 in Hin|].
    destruct (H1 p _ h sec Hin ltac:(by left)) as (full & Hl & Hs).
    replace p with (split_link full).1 by (by rewrite Hs). eauto. }
  split.
  - unfold checkLinks. rewrite check_files_passed by done. split.
    + intros [_ H] html full Hin.
      specialize (H3 html full Hin).
      destruct (H _ _ (dict_get_elem _ _ _ H3)) as [?|(c & Hc & Hok)]; [by left|].
      right. exists c. split; [done|]. intros s Hs. apply (Hok html).
      by rewrite <- Hs.
    + intros H. split; [done|]. intros p secs Hin.
      destruct (is_external p) eqn:Eext; [by left|]. right.
      assert (Hlink : ∀ h sec, (h, sec) ∈ secs →
                ∃ c, read p = Page c ∧
                     ∀ s, sec = Some s → has_section c s = true).
      { intros h sec Hsec.
        destruct (H1 p _ h sec Hin Hsec) as (full & Hl & Hs).
        destruct (H h full Hl) as [Hext|(c & Hc & Hok)]; rewrite Hs in *;
          simpl in *; [congruence|]. eauto. }
      destruct secs as [|[h sec] secs']; [by apply H2 in Hin|].
      destruct (Hlink h sec ltac:(by left)) as (c & Hc & _).
      exists c. split; [done|]. intros h' s' Hin'.
      destruct (Hlink h' (Some s') Hin') as (c' & Hc' & Hok').
      rewrite Hc in Hc'. injection Hc' as <-. by apply Hok'.
  - by apply check_files_ends.
Qed.

End LinkCheck.

Lemma split_link_path_and_section_witness :
  Links.split_link "javadoc/api/Node.html?is-external=true#execute" =
  ("javadoc/api/Node.html", Some "execute").
Proof.
  apply (split_link_path_and_section
           "javadoc/api/Node.html?is-external=true#execute"
           "javadoc/api/Node.html" (Some "execute")).
  split; [|split; [|split]].
  - exists "?is-external=true#execute". split; [reflexivity|].
    right. exists "?"%char, "is-external=true#execute". split; [reflexivity|].
    by right.
  - unfold Links.occurs. simpl. intuition discriminate.
  - unfold Links.occurs. simpl. intuition discriminate.
  - exists "javadoc/api/Node.html?is-external=true". split; [reflexivity|].
    unfold Links.occurs. simpl. intuition discriminate.
Defined.

Lemma checkLinks_passes_iff_links_resolve_witness :
  (Links.checkLinks demo_pages demo_links).2 = Links.Passed.
Proof.
  destruct (checkLinks_passes_iff_links_resolve demo_pages demo_links) as [H _].
  - intros html full Hin.
    repeat (apply elem_of_cons in Hin as [[= -> ->]|Hin]; [vm_compute; discriminate|]).
    by apply elem_of_nil in Hin.
  - apply H. intros html full Hin.
    apply elem_of_cons in Hin as [[= -> ->]|Hin].
    { right. eexists. split; [vm_compute; reflexivity|].
      intros s. vm_compute. intros [= <-]. reflexivity. }
    apply elem_of_cons in Hin as [[= -> ->]|Hin].
    { left. vm_compute. reflexivity. }
    apply elem_of_cons in Hin as [[= -> ->]|Hin].
    { right. eexists. split; [vm_compute; reflexivity|].
      intros s. vm_compute. discriminate. }
    by apply elem_of_nil in Hin.
Defined.

(** * The gate *)

Section GateRuns.

Import Gate.

Variable T : gate_tools.

Lemma bitwidth_loop_spec (runs : list nat) :
  ∃ passed rest,
    runs = passed ++ rest ∧
    (∀ w, w ∈ passed → g_build T (build_args w) = None ∧
                       g_unittest T (unittest_args w) = None) ∧
    match rest with
    | [] => bitwidth_loop T runs = (concat (map passed_round passed), None)
    | w :: _ =>
        match g_build T (build_args w) with
        | Some e =>
            bitwidth_loop T runs =
            (concat (map passed_round passed) ++ unbuilt_round w, Some e)
        | None =>
            ∃ e, g_unittest T (unittest_args w) = Some e ∧
                 bitwidth_loop T runs =
                 (concat (map passed_round passed) ++ passed_round w, Some e)
        end
    end.
Proof.
  induction runs as [|w runs (passed & rest & -> & Hpassed & Hend)].
  - exists [], []. split; [done|]. split; [|done].
    intros w Hw. by apply elem_of_nil in Hw.
  - cbn [bitwidth_loop]. unfold bitwidth_round.
    destruct (g_build T (build_args w)) as [e|] eqn:Eb.
    + exists [], (w :: passed ++ rest). split; [done|]. split.
      * intros w' Hw'. by apply elem_of_nil in Hw'.
      * by rewrite Eb.
    + destruct (g_unittest T (unittest_args w)) as [e|] eqn:Eu.
      * exists [], (w :: passed ++ rest). split; [done|]. split.
        -- intros w' Hw'. by apply elem_of_nil in Hw'.
        -- rewrite Eb. by exists e.
      * exists (w :: passed), rest. split; [done|]. split.
        -- intros w' [->|Hw']%elem_of_cons; [done|by apply Hpassed].
        -- destruct rest as [|w' rest'].
           ++ by rewrite Hend.
           ++ destruct (g_build T (build_args w')) as [e|].
              ** by rewrite Hend.
              ** destruct Hend as (e & He & ->). by exists e.
Qed.

(** X22.  The gate runs the bit widths 1, 2, 4, 8, 16 in this order and
    stops at the first width whose build or unit test run raises.  Every
    width before it is built and tested and leaves five entries: the
    build, the unit tests, the line "Completed ...", and the two lines
    that tell how to reproduce the build and the unit tests.  The width
    that fails leaves the same entries, without the unit tests when it
    is the build that raised, and the gate ends with the exception
    raised; no later width is built.  Without failure all five widths
    leave their five entries and the gate ends normally. *)
Theorem bitwidth_rounds_stop_at_first_failure :
  ∃ passed rest,
    [1; 2; 4; 8; 16]%nat = passed ++ rest ∧
    (∀ w, w ∈ passed → g_build T (build_args w) = None ∧
                       g_unittest T (unittest_args w) = None) ∧
    match rest with
    | [] =>
        truffle_gate_state_bitwidth_tests T =
        (concat (map passed_round passed), None)
    | w :: _ =>
        match g_build T (build_args w) with
        | Some e =>
            truffle_gate_state_bitwidth_tests T =
            (concat (map passed_round passed) ++ unbuilt_round w, Some e)
        | None =>
            ∃ e, g_unittest T (unittest_args w) = Some e ∧
                 truffle_gate_state_bitwidth_tests T =
                 (concat (map passed_round passed) ++ passed_round w, Some e)
        end
    end.
Proof.
  destruct (bitwidth_loop_spec [1; 2; 4; 8; 16]%nat)
    as (passed & rest & Hruns & Hpassed & Hend).
  exists passed, rest. split; [done|]. split; [done|]. exact Hend.
Qed.

End GateRuns.

(** * The unittest participant *)

Section UnittestParticipant.

Import Participant.

Lemma list_extend_lookup (h : gmap nat (list string)) (l r : nat)
    (more : list string) :
  list_extend h l more !! r =
  if decide (l = r) then (λ old, old ++ more) <$> h !! r else h !! r.
Proof.
  unfold list_extend. rewrite lookup_alter. by case_decide; subst.
Qed.

(** X23.  With the TCK participant switched off, the participant hands
    back a new list of VM arguments, the caller's arguments followed by
    the two it adds, and leaves every list of the caller alone but one:
    the list of main class arguments is the caller's own, grown in place
    by the twelve arguments added. *)
Theorem unittest_participant_extends_in_place
    (tck_participant : gmap nat (list string) → config →
                       gmap nat (list string) * config)
    (h : gmap nat (list string)) (c : config) (vm main : list string) :
  h !! (vmArgs c) = Some vm →
  h !! (mainClassArgs c) = Some main →
  let '(h', c') := unittest_config_participant false tck_participant h c in
  (vmArgs c' ∉ dom h) ∧
  h' !! (vmArgs c') = Some (vm ++ added_vm_args) ∧
  mainClassArgs c' = mainClassArgs c ∧
  mainClass c' = mainClass c ∧
  h' !! (mainClassArgs c) = Some (main ++ added_main_class_args) ∧
  ∀ r, r ∈ dom h → r ≠ mainClassArgs c → h' !! r = h !! r.
Proof.
  intros Hvm Hmain. unfold unittest_config_participant, list_add.
  set (r1 := fresh (dom h)).
  set (h1 := <[r1 := default [] (h !! (vmArgs c)) ++ _]> h).
  set (r2 := fresh (dom h1)).
  set (h2 := <[r2 := _]> h1).
  assert (Hr1 : r1 ∉ dom h) by apply is_fresh.
  assert (Hr2 : r2 ∉ dom h1) by apply is_fresh.
  assert (Hr2' : (r2 ∉ dom h) ∧ r2 ≠ r1).
  { unfold h1 in Hr2. rewrite dom_insert_L in Hr2. set_solver. }
  destruct Hr2' as [Hr2h Hr21].
  assert (Hm1 : mainClassArgs c ≠ r1).
  { intros E. apply Hr1. rewrite <- E. apply elem_of_dom. eauto. }
  assert (Hm2 : mainClassArgs c ≠ r2).
  { intros E. apply Hr2h. rewrite <- E. apply elem_of_dom. eauto. }
  simpl. split; [done|].
  rewrite !list_extend_lookup.
  split.
  { rewrite !decide_False by done. unfold h2. rewrite lookup_insert_eq.
    unfold h1. rewrite lookup_insert_eq, Hvm. simpl.
    by rewrite <- app_assoc. }
  split; [done|]. split; [done|]. split.
  { rewrite !decide_True by done. unfold h2, h1.
    rewrite lookup_insert_ne, lookup_insert_ne, Hmain by done. simpl.
    by rewrite <- !app_assoc. }
  intros r Hr Hne. rewrite !list_extend_lookup.
  rewrite !decide_False by done. unfold h2, h1.
  rewrite !lookup_insert_ne; [done| |]; intros <-; done.
Qed.

End UnittestParticipant.

Lemma unittest_participant_extends_in_place_witness :
  let h : gmap nat (list string) := {[ 0%nat := ["-ea"]; 1%nat := ["SLTest"] ]} in
  let c := Participant.Config 0 "com.oracle.mxtool.junit.MxJUnitWrapper" 1 in
  (Participant.unittest_config_participant false (λ h c, (h, c)) h c).1 !! 0%nat
    = Some ["-ea"] ∧
  (Participant.unittest_config_participant false (λ h c, (h, c)) h c).1 !! 1%nat
    = Some ("SLTest" :: Participant.added_main_class_args).
Proof.
  intros h c.
  pose proof (unittest_participant_extends_in_place (λ h c, (h, c)) h c
                ["-ea"] ["SLTest"] eq_refl eq_refl) as H.
  destruct (Participant.unittest_config_participant false _ h c) as [h' c'].
  destruct H as (_ & _ & _ & _ & Hmain & Hrest). cbn [fst].
  split.
  - rewrite (Hrest 0%nat); [done| |done].
    apply elem_of_dom. by eexists.
  - exact Hmain.
Defined.

Lemma find_path_arg_finds_the_last_but_one_witness :
  contains "-Dtruffle.class.path.append=" "-ea" = false.
Proof.
  pose proof (find_path_arg_finds_the_last_but_one appended_twice
                "-Dtruffle.class.path.append=") as H.
  change (find_path_arg appended_twice "-Dtruffle.class.path.append=")
    with (Some (0%nat, "a.jar")) in H.
  destruct H as (_ & arg & _ & _ & _ & H).
  apply (H 1%nat "-ea"); [lia|simpl; lia|reflexivity].
Defined.

Lemma bitwidth_rounds_stop_at_first_failure_witness :
  Gate.truffle_gate_state_bitwidth_tests failing_build_tools =
  (Gate.passed_round 1 ++ Gate.passed_round 2 ++ Gate.unbuilt_round 4,
   Some (SystemExit 1)).
Proof.
  destruct (bitwidth_rounds_stop_at_first_failure failing_build_tools)
    as (passed & rest & Hruns & Hpassed & Hend).
  destruct passed as [|w1 [|w2 [|w3 passed]]]; simpl in Hruns.
  - subst rest. exfalso. vm_compute in Hend.
    destruct Hend as (e & He & _). discriminate.
  - injection Hruns as <- <-. exfalso. vm_compute in Hend.
    destruct Hend as (e & He & _). discriminate.
  - injection Hruns as <- <- <-. vm_compute in Hend. vm_compute. exact Hend.
  - injection Hruns as <- <- <- Hruns. exfalso.
    destruct (Hpassed 4%nat) as [Hb _]; [by right; right; left|].
    vm_compute in Hb. discriminate.
Defined.

(** * The TCK participant *)

Lemma find_path_arg_index (vmArgs : list string) (prefix : string)
    (i : nat) (v : string) :
  find_path_arg vmArgs prefix = Some (i, v) → (i + 1 < length vmArgs)%nat.
Proof.
  unfold find_path_arg. intros Hf.
  pose proof (find_path_arg_loop_down vmArgs prefix (length vmArgs - 1)
                ltac:(lia)) as H.
  rewrite Hf in H. lia.
Qed.

Section TckParticipantBuilders.

Import TckParticipant.

Lemma od_add_elem (d : list string) (k e : string) :
  e ∈ od_add d k ↔ e ∈ d ∨ e = k.
Proof.
  unfold od_add. case_bool_decide.
  - split; [auto|]. by intros [?| ->].
  - by rewrite elem_of_app, list_elem_of_singleton.
Qed.

Lemma od_add_NoDup (d : list string) (k : string) :
  NoDup d → NoDup (od_add d k).
Proof.
  unfold od_add. intros Hd. case_bool_decide; [done|].
  apply NoDup_app. split; [done|]. split; [|apply NoDup_singleton].
  by intros x Hx ->%list_elem_of_singleton.
Qed.

Lemma fold_od_add_elem (l d : list string) (e : string) :
  e ∈ fold_left od_add l d ↔ e ∈ d ∨ e ∈ l.
Proof.
  revert d. induction l as [|k l IH]; intros d; simpl.
  - rewrite elem_of_nil. tauto.
  - rewrite IH, od_add_elem, elem_of_cons. tauto.
Qed.

Lemma fold_od_add_NoDup (l d : list string) :
  NoDup d → NoDup (fold_left od_add l d).
Proof.
  revert d. induction l as [|k l IH]; intros d Hd; simpl; [done|].
  by apply IH, od_add_NoDup.
Qed.

Lemma fold_od_add_prefix (l d : list string) :
  d `prefix_of` fold_left od_add l d.
Proof.
  revert d. induction l as [|k l IH]; intros d; simpl; [done|].
  etrans; [|apply IH]. unfold od_add. case_bool_decide; [done|].
  by apply prefix_app_r.
Qed.

Lemma od_pop_elem (d : list string) (k e : string) :
  e ∈ od_pop d k ↔ e ∈ d ∧ e ≠ k.
Proof.
  unfold od_pop.
  rewrite !list_elem_of_In, filter_In, negb_true_iff, String.eqb_neq. done.
Qed.

Lemma od_pop_NoDup (d : list string) (k : string) :
  NoDup d → NoDup (od_pop d k).
Proof.
  rewrite !NoDup_ListNoDup. apply List.NoDup_filter.
Qed.

Lemma fold_od_pop_elem (l d : list string) (e : string) :
  e ∈ fold_left od_pop l d ↔ e ∈ d ∧ e ∉ l.
Proof.
  revert d. induction l as [|k l IH]; intros d; simpl.
  - rewrite elem_of_nil. tauto.
  - rewrite IH, od_pop_elem, not_elem_of_cons. tauto.
Qed.

Lemma fold_od_pop_NoDup (l d : list string) :
  NoDup d → NoDup (fold_left od_pop l d).
Proof.
  revert d. induction l as [|k l IH]; intros d Hd; simpl; [done|].
  by apply IH, od_pop_NoDup.
Qed.

Lemma boot_loop (boot cpB tpB bpB : list string) :
  fold_left
    (λ '(cpBuilder, tpBuilder, bpBuilder) bootCpElement,
       (od_pop cpBuilder bootCpElement,
        od_pop tpBuilder bootCpElement,
        od_add bpBuilder bootCpElement))
    boot (cpB, tpB, bpB)
  = (fold_left od_pop boot cpB, fold_left od_pop boot tpB,
     fold_left od_add boot bpB).
Proof.
  revert cpB tpB bpB. induction boot as [|b boot IH]; intros; simpl; [done|].
  apply IH.
Qed.

Lemma builder_of_elem (pathsep : ascii) (value : option string) (e : string) :
  e ∈ builder_of pathsep value ↔ old_entries pathsep value e.
Proof.
  unfold builder_of, old_entries. destruct value as [s|].
  - destruct (String.eqb s "") eqn:Hs.
    + apply String.eqb_eq in Hs. rewrite elem_of_nil.
      split; [done|]. intros (s' & [= <-] & ? & _). done.
    + apply String.eqb_neq in Hs. rewrite fold_od_add_elem, elem_of_nil.
      split.
      * intros [[]|He]. by exists s.
      * intros (s' & [= <-] & _ & He). by right.
  - rewrite elem_of_nil. split; [done|]. by intros (s & ? & _).
Qed.

Lemma builder_of_NoDup (pathsep : ascii) (value : option string) :
  NoDup (builder_of pathsep value).
Proof.
  unfold builder_of. destruct value as [s|]; [|apply NoDup_nil_2].
  destruct (String.eqb s ""); [apply NoDup_nil_2|].
  apply fold_od_add_NoDup, NoDup_nil_2.
Qed.

(** X24.  On GraalVM the three paths hold no entry twice; the class path
    holds the entries it had and the providers, the truffle class path
    the entries it had and the languages, both without any entry of the
    TCK common distribution; the boot class path holds the entries it
    had and those of the TCK common distribution. *)
Theorem tck_paths_on_graalvm (pathsep : ascii)
    (providers languages boot_cp : list string)
    (cpValue : option string) (vmArgs : list string) :
  let '(cpBuilder, tpBuilder, bpBuilder) :=
    builders pathsep providers languages boot_cp true cpValue vmArgs in
  let tpValue := snd <$> find_path_arg vmArgs "-Dtruffle.class.path.append=" in
  let bpValue := snd <$> find_path_arg vmArgs "-Xbootclasspath/a:" in
  (NoDup cpBuilder ∧ NoDup tpBuilder ∧ NoDup bpBuilder) ∧
  ∀ e,
    (e ∈ cpBuilder ↔
       (old_entries pathsep cpValue e ∨ e ∈ providers) ∧ e ∉ boot_cp) ∧
    (e ∈ tpBuilder ↔
       (old_entries pathsep tpValue e ∨ e ∈ languages) ∧ e ∉ boot_cp) ∧
    (e ∈ bpBuilder ↔ old_entries pathsep bpValue e ∨ e ∈ boot_cp).
Proof.
  unfold builders. rewrite boot_loop. cbv zeta. split.
  - split; [|split].
    + apply fold_od_pop_NoDup, fold_od_add_NoDup, builder_of_NoDup.
    + apply fold_od_pop_NoDup, fold_od_add_NoDup, builder_of_NoDup.
    + apply fold_od_add_NoDup, builder_of_NoDup.
  - intros e.
    rewrite !fold_od_pop_elem, !fold_od_add_elem, !builder_of_elem. done.
Qed.

(** X25.  Elsewhere the class path holds no entry twice, holds the
    entries it had, the providers and the languages and nothing else, and
    the entries it had come first, in their order. *)
Theorem tck_class_path_elsewhere (pathsep : ascii)
    (providers languages boot_cp : list string)
    (cpValue : option string) (vmArgs : list string) :
  let cpBuilder :=
    (builders pathsep providers languages boot_cp false cpValue vmArgs).1.1 in
  NoDup cpBuilder ∧
  builder_of pathsep cpValue `prefix_of` cpBuilder ∧
  ∀ e, e ∈ cpBuilder ↔
       old_entries pathsep cpValue e ∨ e ∈ providers ∨ e ∈ languages.
Proof.
  unfold builders. cbn [fst]. split; [|split].
  - apply fold_od_add_NoDup, fold_od_add_NoDup, builder_of_NoDup.
  - etrans; [|apply fold_od_add_prefix]. apply fold_od_add_prefix.
  - intros e. rewrite !fold_od_add_elem, builder_of_elem. tauto.
Qed.

Lemma java_properties_appended (java_properties : list (string * string))
    (args : list string) :
  fold_left (λ args '(key, value), args ++ ["-D" +:+ key +:+ "=" +:+ value])
            java_properties args
  = args ++ map java_property java_properties.
Proof.
  revert args. induction java_properties as [|[k v] l IH]; intros args; simpl.
  - by rewrite app_nil_r.
  - rewrite IH. by rewrite <- app_assoc.
Qed.

Lemma replace_or_append_length (l : list string) (index : option nat)
    (value : string) :
  (length l ≤ length (replace_or_append l index value))%nat.
Proof.
  unfold replace_or_append. destruct index as [[|i]|];
    rewrite ?length_app, ?length_insert; simpl; lia.
Qed.

Lemma replace_or_append_lookup (l : list string) (index : option nat)
    (value : string) (i : nat) :
  (i < length l)%nat → (i = 0%nat ∨ index ≠ Some i) →
  replace_or_append l index value !! i = l !! i.
Proof.
  intros Hi Hne. unfold replace_or_append.
  destruct index as [[|j]|]; try by rewrite lookup_app_l.
  apply list_lookup_insert_ne. destruct Hne as [->|Hne]; congruence.
Qed.

(** The arguments before the java properties are appended. *)
Lemma participant_shape (pathsep : ascii)
    (providers languages boot_cp : list string)
    (java_properties : list (string * string))
    (is_graalvm : bool) (cp : option (nat * string)) (vmArgs : list string) :
  ∃ args,
    unittest_config_participant_tck pathsep providers languages boot_cp
      java_properties is_graalvm cp vmArgs
    = args ++ map java_property java_properties
    ∧ (length vmArgs ≤ length args)%nat
    ∧ (∀ i, (i < length vmArgs)%nat →
         (i = 0%nat ∨
          (fst <$> cp ≠ Some i ∧
           (is_graalvm = true →
            fst <$> find_path_arg vmArgs "-Dtruffle.class.path.append=" ≠ Some i ∧
            fst <$> find_path_arg vmArgs "-Xbootclasspath/a:" ≠ Some i))) →
         args !! i = vmArgs !! i)
    ∧ (is_graalvm = true →
       (fst <$> find_path_arg vmArgs "-Dtruffle.class.path.append=" = Some 0%nat ∨
        find_path_arg vmArgs "-Dtruffle.class.path.append=" = None) →
       match cp with Some (i, _) => (i < length vmArgs)%nat | None => True end →
       args !! length vmArgs
       = Some ("-Dtruffle.class.path.append=" +:+
               join_char pathsep
                 (builders pathsep providers languages boot_cp true
                    (snd <$> cp) vmArgs).1.2)).
Proof.
  unfold unittest_config_participant_tck.
  destruct (builders pathsep providers languages boot_cp is_graalvm
              (snd <$> cp) vmArgs) as [[cpB tpB] bpB] eqn:Hb.
  rewrite java_properties_appended.
  eexists. split; [reflexivity|].
  set (tpI := fst <$> find_path_arg vmArgs "-Dtruffle.class.path.append=").
  set (bpI := fst <$> find_path_arg vmArgs "-Xbootclasspath/a:").
  set (tpV := "-Dtruffle.class.path.append=" +:+ join_char pathsep tpB).
  set (bpV := "-Xbootclasspath/a:" +:+ join_char pathsep bpB).
  set (mid := if is_graalvm
              then replace_or_append (replace_or_append vmArgs tpI tpV) bpI bpV
              else vmArgs).
  assert (Hmid : (length vmArgs ≤ length mid)%nat).
  { subst mid. destruct is_graalvm; [|done].
    etrans; [|apply replace_or_append_length].
    apply replace_or_append_length. }
  assert (Hbp : ∀ j, bpI = Some j → (j + 1 < length vmArgs)%nat).
  { intros j Hj. subst bpI.
    destruct (find_path_arg vmArgs "-Xbootclasspath/a:") as [[i v]|] eqn:Hf;
      [|done]. simpl in Hj. injection Hj as <-.
    by apply find_path_arg_index in Hf. }
  split; [|split].
  - destruct (fst <$> cp) as [[|i]|];
      rewrite ?length_app, ?length_insert; simpl; lia.
  - intros i Hi Hne.
    assert (Hmidi : mid !! i = vmArgs !! i).
    { subst mid. destruct is_graalvm; [|done].
      rewrite replace_or_append_lookup.
      - apply replace_or_append_lookup; [done|]. destruct Hne as [|[_ H]]; [by left|].
        right. by apply H.
      - pose proof (replace_or_append_length vmArgs tpI tpV). lia.
      - destruct Hne as [|[_ H]]; [by left|]. right. by apply H. }
    destruct (fst <$> cp) as [[|j]|] eqn:Hcp.
    + rewrite <- app_assoc, lookup_app_l by lia. done.
    + rewrite list_lookup_insert_ne; [done|].
      destruct Hne as [->|[H _]]; congruence.
    + rewrite <- app_assoc, lookup_app_l by lia. done.
  - intros -> Htp Hcp. cbn [snd] in *.
    rewrite Hb. cbn [fst snd].
    assert (Hmidn : mid !! length vmArgs = Some tpV).
    { subst mid.
      assert (Happ : replace_or_append vmArgs tpI tpV = vmArgs ++ [tpV]).
      { unfold replace_or_append.
        destruct Htp as [Htp|Htp]; [rewrite Htp|unfold tpI; rewrite Htp];
          done. }
      rewrite Happ.
      destruct bpI as [j|] eqn:Hj.
      - specialize (Hbp j eq_refl).
        rewrite replace_or_append_lookup.
        + by rewrite lookup_app_r, Nat.sub_diag by lia.
        + rewrite length_app. simpl. lia.
        + right. intros [= ->]. lia.
      - unfold replace_or_append.
        rewrite <- app_assoc, lookup_app_r, Nat.sub_diag by lia. done. }
    destruct cp as [[i v]|]; simpl.
    + destruct i as [|i].
      * rewrite <- app_assoc, lookup_app_l; [done|].
        apply lookup_lt_Some in Hmidn. done.
      * rewrite list_lookup_insert_ne by lia. done.
    + rewrite <- app_assoc, lookup_app_l; [done|].
      apply lookup_lt_Some in Hmidn. done.
Qed.

(** X26.  On GraalVM the truffle class path option is appended after the
    arguments given unless [find_path_arg] found it at an index other
    than 0: an option found at index 0 is taken for its value, stays
    where it is, and the new option is added after the arguments. *)
Theorem tck_truffle_path_appended_unless_found_later (pathsep : ascii)
    (providers languages boot_cp : list string)
    (java_properties : list (string * string))
    (cp : option (nat * string)) (vmArgs : list string) :
  (∀ j, fst <$> find_path_arg vmArgs "-Dtruffle.class.path.append=" = Some j →
        j = 0%nat) →
  match cp with Some (i, _) => (i < length vmArgs)%nat | None => True end →
  let result :=
    unittest_config_participant_tck pathsep providers languages boot_cp
      java_properties true cp vmArgs in
  (∀ a, vmArgs !! 0%nat = Some a → result !! 0%nat = Some a) ∧
  result !! length vmArgs
  = Some ("-Dtruffle.class.path.append=" +:+
          join_char pathsep
            (builders pathsep providers languages boot_cp true
               (snd <$> cp) vmArgs).1.2).
Proof.
  intros Hfound Hcp result. subst result.
  destruct (participant_shape pathsep providers languages boot_cp
              java_properties true cp vmArgs)
    as (args & -> & Hlen & Hkeep & Hnew).
  split.
  - intros a Ha. pose proof (lookup_lt_Some _ _ _ Ha).
    rewrite lookup_app_l by lia. rewrite Hkeep; [done|lia|by left].
  - assert (Hargs : args !! length vmArgs
                    = Some ("-Dtruffle.class.path.append=" +:+
                            join_char pathsep
                              (builders pathsep providers languages boot_cp
                                 true (snd <$> cp) vmArgs).1.2)).
    { apply Hnew; [done| |done].
      destruct (find_path_arg vmArgs "-Dtruffle.class.path.append=")
        as [[j v]|]; [|by right].
      left. simpl. by rewrite (Hfound j eq_refl). }
    pose proof (lookup_lt_Some _ _ _ Hargs).
    by rewrite lookup_app_l by lia.
Qed.

(** X27.  An argument at an index that neither [mx.find_classpath_arg]
    nor, on GraalVM, [find_path_arg] has answered is still at its index
    in the result. *)
Theorem tck_other_arguments_stay (pathsep : ascii)
    (providers languages boot_cp : list string)
    (java_properties : list (string * string))
    (is_graalvm : bool) (cp : option (nat * string)) (vmArgs : list string)
    (i : nat) :
  (i < length vmArgs)%nat →
  fst <$> cp ≠ Some i →
  (is_graalvm = true →
   fst <$> find_path_arg vmArgs "-Dtruffle.class.path.append=" ≠ Some i ∧
   fst <$> find_path_arg vmArgs "-Xbootclasspath/a:" ≠ Some i) →
  unittest_config_participant_tck pathsep providers languages boot_cp
    java_properties is_graalvm cp vmArgs !! i
  = vmArgs !! i.
Proof.
  intros Hi Hcp Hopt.
  destruct (participant_shape pathsep providers languages boot_cp
              java_properties is_graalvm cp vmArgs)
    as (args & -> & Hlen & Hkeep & _).
  rewrite lookup_app_l by lia. apply Hkeep; [done|]. by right.
Qed.

(** X28.  The java properties are the last arguments of the result, one
    [-Dkey=value] each, in the order of the dictionary, and no argument
    is lost before them. *)
Theorem tck_java_properties_come_last (pathsep : ascii)
    (providers languages boot_cp : list string)
    (java_properties : list (string * string))
    (is_graalvm : bool) (cp : option (nat * string)) (vmArgs : list string) :
  ∃ args,
    unittest_config_participant_tck pathsep providers languages boot_cp
      java_properties is_graalvm cp vmArgs
    = args ++ map java_property java_properties
    ∧ (length vmArgs ≤ length args)%nat.
Proof.
  destruct (participant_shape pathsep providers languages boot_cp
              java_properties is_graalvm cp vmArgs)
    as (args & Hargs & Hlen & _).
  by exists args.
Qed.

End TckParticipantBuilders.

Lemma tck_truffle_path_appended_unless_found_later_witness :
  let vmArgs := ["-Dtruffle.class.path.append=x.jar"; "-ea"; "-esa"] in
  let result :=
    TckParticipant.unittest_config_participant_tck ":" ["p.jar"] ["l.jar"]
      ["common.jar"] [("k", "v")] true None vmArgs in
  (∀ a, vmArgs !! 0%nat = Some a → result !! 0%nat = Some a) ∧
  result !! 3%nat = Some "-Dtruffle.class.path.append=x.jar:l.jar".
Proof.
  apply (tck_truffle_path_appended_unless_found_later ":" ["p.jar"] ["l.jar"]
           ["common.jar"] [("k", "v")] None
           ["-Dtruffle.class.path.append=x.jar"; "-ea"; "-esa"]).
  - vm_compute. by intros j [= <-].
  - exact I.
Defined.

Lemma tck_other_arguments_stay_witness :
  TckParticipant.unittest_config_participant_tck ":" ["p.jar"] ["l.jar"]
    ["common.jar"] [("k", "v")] true (Some (1%nat, "a.jar"))
    ["-cp"; "a.jar"; "-Xbootclasspath/a:b.jar"; "-ea"; "-esa"] !! 3%nat
  = Some "-ea".
Proof.
  apply (tck_other_arguments_stay ":" ["p.jar"] ["l.jar"] ["common.jar"]
           [("k", "v")] true (Some (1%nat, "a.jar"))
           ["-cp"; "a.jar"; "-Xbootclasspath/a:b.jar"; "-ea"; "-esa"] 3).
  - simpl. lia.
  - discriminate.
  - intros _. vm_compute. split; discriminate.
Defined.
